(** * demo-realtime: neurofeedback loop driving a double spinning wheel

    A shallow embedding of

    - [demo_realtime/feedbacks/double_spinning_wheel.py]
      (class [DoubleSpinningWheel]: the actuator handle), and
    - [demo_realtime/nfb_double_spinning_wheel.py]
      (function [nfb_double_spinning_wheel]: the control loop),

    followed by the properties of the handle's lifecycle guards, of the
    ring buffer of metrics, of the percentile range and of the feedback
    value pushed to the wheel.

    Conventions.

    - Python [int] is [Z] (or [nat] for the loop counter, which only
      counts up from 0); a [multiprocessing.Value("i", _)] cell is a
      signed 32-bit C int, kept as a [Z] with its wrap-around written out.
    - Python / numpy floating point numbers are the type [float] below:
      the IEEE special values [NaN], [+inf], [-inf] and the finite
      numbers.  Finite numbers are exact rationals: rounding, overflow to
      infinity and the sign of zero are not modelled.  The special values
      are there because the code produces them itself (the [nan]
      sentinel of the buffer, a division by a zero range).  The feedback
      value, whose truncation depends on rounding, is embedded a second
      time over a rounding function, binary64's among them.
    - Exceptions are values of [exn]; a computation that may raise returns
      a [res]. *)

From Stdlib Require Import QArith Qround Qpower Lqa.
From stdpp Require Import base numbers list strings gmap sorting.

Local Open Scope Z_scope.

(** ** Exceptions and results *)

Inductive exn : Type :=
| RuntimeError (msg : string)
| AssertionError (msg : string)
| ValueError (msg : string)
| OverflowError (msg : string)
| TypeError (msg : string)
| AttributeError (name : string).

Inductive res (A : Type) : Type :=
| Ok (a : A)
| Raise (e : exn).
Arguments Ok {A} a.
Arguments Raise {A} e.

Definition is_ok {A} (r : res A) : bool :=
  match r with Ok _ => true | Raise _ => false end.

(** ** Floating point values *)

Inductive float : Type :=
| NaN
| PInf
| NInf
| Fin (q : Q).

Definition isnan (x : float) : bool :=
  match x with NaN => true | _ => false end.


Definition fneg (x : float) : float :=
  match x with
  | NaN => NaN
  | PInf => NInf
  | NInf => PInf
  | Fin q => Fin (- q)
  end.

Definition fadd (x y : float) : float :=
  match x, y with
  | NaN, _ | _, NaN => NaN
  | PInf, NInf | NInf, PInf => NaN
  | PInf, _ | _, PInf => PInf
  | NInf, _ | _, NInf => NInf
  | Fin a, Fin b => Fin (a + b)
  end.

Definition fsub (x y : float) : float := fadd x (fneg y).

(** Sign of a rational: [Lt], [Eq] or [Gt] as it compares with 0. *)
Definition Qsign (q : Q) : comparison := (q ?= 0)%Q.

Definition scale_inf (positive : bool) (q : Q) : float :=
  match Qsign q with
  | Eq => NaN
  | Gt => if positive then PInf else NInf
  | Lt => if positive then NInf else PInf
  end.

Definition fmul (x y : float) : float :=
  match x, y with
  | NaN, _ | _, NaN => NaN
  | Fin a, Fin b => Fin (a * b)
  | PInf, Fin b | Fin b, PInf => scale_inf true b
  | NInf, Fin b | Fin b, NInf => scale_inf false b
  | PInf, PInf | NInf, NInf => PInf
  | PInf, NInf | NInf, PInf => NInf
  end.

(** Division never raises on numpy scalars: a zero divisor gives an
    infinity, or [NaN] for [0 / 0].  The zero is taken as [+0], which is
    what [x - x] evaluates to. *)
Definition fdiv (x y : float) : float :=
  match x, y with
  | NaN, _ | _, NaN => NaN
  | Fin a, Fin b =>
      match Qsign b with
      | Eq => match Qsign a with
              | Eq => NaN
              | Gt => PInf
              | Lt => NInf
              end
      | _ => Fin (a / b)
      end
  | Fin _, (PInf | NInf) => Fin 0
  | PInf, Fin b => match Qsign b with Lt => NInf | _ => PInf end
  | NInf, Fin b => match Qsign b with Lt => PInf | _ => NInf end
  | (PInf | NInf), (PInf | NInf) => NaN
  end.

(** Comparisons; every comparison with [NaN] is false. *)
Definition fleb (x y : float) : bool :=
  match x, y with
  | NaN, _ | _, NaN => false
  | NInf, _ | _, PInf => true
  | _, NInf | PInf, _ => false
  | Fin a, Fin b => Qle_bool a b
  end.

Definition fltb (x y : float) : bool :=
  match x, y with
  | NaN, _ | _, NaN => false
  | PInf, _ | _, NInf => false
  | NInf, _ | _, PInf => true
  | Fin a, Fin b => negb (Qle_bool b a)
  end.

Definition feqb (x y : float) : bool :=
  match x, y with
  | PInf, PInf | NInf, NInf => true
  | Fin a, Fin b => Qeq_bool a b
  | _, _ => false
  end.

(** [np.maximum] and [np.minimum] propagate [NaN]. *)
Definition maximum (x y : float) : float :=
  if isnan x || isnan y then NaN else if fleb x y then y else x.

Definition minimum (x y : float) : float :=
  if isnan x || isnan y then NaN else if fleb x y then x else y.

(** [np.clip(x, lo, hi)] is [minimum(maximum(x, lo), hi)]. *)
Definition clip (x lo hi : float) : float := minimum (maximum x lo) hi.

(** Truncation of a rational towards zero. *)
Definition Qtrunc (q : Q) : Z := Z.quot (Qnum q) (Z.pos (Qden q)).

(** Python's [int(x)] on a float. *)
Definition int (x : float) : res Z :=
  match x with
  | NaN => Raise (ValueError "cannot convert float NaN to integer")
  | PInf | NInf => Raise (OverflowError "cannot convert float infinity to integer")
  | Fin q => Ok (Qtrunc q)
  end.

(** ** [np.percentile]

    numpy's default method, [linear]: with [n] values sorted in
    increasing order, the [q]-th percentile sits at the virtual index
    [(n - 1) * q / 100]; its integer part [i] selects the neighbours
    [s[i]] and [s[i+1]] (the latter clipped to the last index) and its
    fractional part [g] interpolates between them.  A [NaN] anywhere in
    the input makes the result [NaN].  ([q] is between 0 and 100 at both
    call sites; numpy's range check on [q] is not modelled.) *)

(** The order numpy sorts floats by: increasing, [NaN] last. *)
Definition sort_le (x y : float) : Prop :=
  match y with
  | NaN => True
  | _ => fleb x y = true
  end.

#[global] Instance sort_le_dec x y : Decision (sort_le x y).
Proof. destruct y; simpl; apply _. Defined.

Definition np_sort (a : list float) : list float := merge_sort sort_le a.

(** numpy's [_lerp]: [a + (b - a) * g], replaced by
    [b - (b - a) * (1 - g)] where [g >= 0.5]. *)
Definition lerp (a b : float) (g : Q) : float :=
  let diff_b_a := fsub b a in
  if Qle_bool 0.5 g then fsub b (fmul diff_b_a (Fin (1 - g)))
  else fadd a (fmul diff_b_a (Fin g)).

Definition percentile (a : list float) (q : Q) : float :=
  if existsb isnan a then NaN
  else
    let s := np_sort a in
    let n := length a in
    let virtual_index := ((inject_Z (Z.of_nat n) - 1) * q / 100)%Q in
    let previous := Z.to_nat (Qfloor virtual_index) in
    let next := Nat.min (S previous) (Nat.pred n) in
    let gamma := (virtual_index - inject_Z (Qfloor virtual_index))%Q in
    lerp (nth previous s NaN) (nth next s NaN) gamma.

(** ** Python values passed to the wheel *)

Inductive number : Type :=
| PyInt (z : Z)
| PyFloat (x : float).

#[local] Unset Elimination Schemes.
Inductive pyval : Type :=
| Num (n : number)
| PyStr (s : string)
| PyTuple (vs : list pyval).
#[local] Set Elimination Schemes.

(** [int(v)] on a number. *)
Definition py_int (v : number) : res Z :=
  match v with
  | PyInt z => Ok z
  | PyFloat x => int x
  end.

(** [v == k] for a number [v] and an int [k]. *)
Definition py_eq_int (v : number) (k : Z) : bool :=
  match v with
  | PyInt z => z =? k
  | PyFloat x => feqb x (Fin (inject_Z k))
  end.

(** [v < k] and [v > k] for an int literal [k]: defined on numbers only,
    a [TypeError] on strings and tuples. *)
Definition to_float (v : number) : float :=
  match v with
  | PyInt z => Fin (inject_Z z)
  | PyFloat x => x
  end.

Definition py_lt_int (v : pyval) (k : Z) : res bool :=
  match v with
  | Num n => Ok (fltb (to_float n) (Fin (inject_Z k)))
  | _ => Raise (TypeError "'<' not supported between these instances")
  end.

Definition py_gt_int (v : pyval) (k : Z) : res bool :=
  match v with
  | Num n => Ok (fltb (Fin (inject_Z k)) (to_float n))
  | _ => Raise (TypeError "'>' not supported between these instances")
  end.

(** ** Shared cells: [multiprocessing.Value("i", _)]

    A cell holds a C [int]; ctypes stores a Python int without overflow
    check, keeping its low 32 bits as a signed number, and refuses a
    float. *)

Definition c_int (z : Z) : Z := (z + 2 ^ 31) mod 2 ^ 32 - 2 ^ 31.

Definition cell_store (v : number) : res Z :=
  match v with
  | PyInt z => Ok (c_int z)
  | PyFloat _ => Raise (TypeError "'float' object cannot be interpreted as an integer")
  end.

(** ** [multiprocessing.Process]

    Only the part of the process object the handle relies on: whether it
    has been spawned.  [start()] asserts that it has not, [join()] that
    it has. *)

Record Process : Type := { spawned : bool }.

Definition Process_start (p : Process) : res Process :=
  if spawned p then Raise (AssertionError "cannot start a process twice")
  else Ok {| spawned := true |}.

Definition Process_join (p : Process) : res Process :=
  if spawned p then Ok p
  else Raise (AssertionError "can only join a started process").

(** Sequencing of computations that may raise. *)
Definition res_bind {A B} (m : res A) (k : A → res B) : res B :=
  match m with
  | Ok a => k a
  | Raise e => Raise e
  end.

Notation "x <- m ;; k" := (res_bind m (fun x => k))
  (at level 100, m at next level, right associativity, only parsing).

(** * The actuator handle: class [DoubleSpinningWheel] *)

Module DoubleSpinningWheel.

(** The instance: one field per attribute [__init__] sets.  The two shared
    cells hold the C int they currently store. *)
Record t : Type := {
  _winkwargs : gmap string pyval;
  _image : string;
  _size : pyval;
  _offset : pyval;
  _speed : Z;
  _status : Z;
  _process : Process;
}.

Definition with_speed (self : t) (v : Z) : t :=
  {| _winkwargs := _winkwargs self; _image := _image self;
     _size := _size self; _offset := _offset self;
     _speed := v; _status := _status self; _process := _process self |}.

Definition with_status (self : t) (v : Z) : t :=
  {| _winkwargs := _winkwargs self; _image := _image self;
     _size := _size self; _offset := _offset self;
     _speed := _speed self; _status := v; _process := _process self |}.

Definition with_process (self : t) (p : Process) : t :=
  {| _winkwargs := _winkwargs self; _image := _image self;
     _size := _size self; _offset := _offset self;
     _speed := _speed self; _status := _status self; _process := p |}.

(** *** Construction *)

Section Init.
(** [import_optional_dependency] and [_check_type] live in
    [demo_realtime.utils], outside the files embedded here; whether the
    packaged [wheel.png] is a file is a fact of the installation. *)
Variable import_optional_dependency : string → res unit.
Variable _check_type : pyval → list string → string → res unit.
Variable wheel_png_is_file : bool.

Definition is_str (v : pyval) (s : string) : bool :=
  match v with
  | PyStr s' => String.eqb s' s
  | _ => false
  end.

(** [kwargs\[key\] = default] unless the key is present. *)
Definition setdefault (key : string) (default : pyval)
    (kwargs : gmap string pyval) : gmap string pyval :=
  match kwargs !! key with
  | None => <[key := default]> kwargs
  | Some _ => kwargs
  end.

(** [if var < -1 or var > 1: logger.warning(...)]: the warning leaves
    no trace in the state, the comparisons may raise. *)
Definition range_check (var : pyval) : res unit :=
  below <- py_lt_int var (-1) ;;
  if (below : bool) then Ok tt
  else above <- py_gt_int var 1 ;; Ok tt.

Definition __init__ (size offset : pyval) (kwargs : gmap string pyval)
    : res t :=
  _ <- import_optional_dependency "psychopy" ;;
  kwargs <- match kwargs !! "units" with
            | None => Ok (<["units" := PyStr "norm"]> kwargs)
            | Some u =>
                if is_str u "norm" then Ok kwargs
                else Raise (ValueError "The unit used should be 'norm'.")
            end ;;
  let kwargs := setdefault "winType" (PyStr "pyglet") kwargs in
  let kwargs :=
    setdefault "color"
      (PyTuple [Num (PyInt (-1)); Num (PyInt (-1)); Num (PyInt (-1))])
      kwargs in
  _ <- (if wheel_png_is_file then Ok tt
        else Raise (AssertionError "")) ;;
  _ <- _check_type size ["numeric"] "size" ;;
  _ <- _check_type offset ["numeric"] "offset" ;;
  _ <- range_check size ;;
  _ <- range_check offset ;;
  Ok {| _winkwargs := kwargs;
        _image := "demo_realtime/feedbacks/resources/wheel.png";
        _size := size;
        _offset := offset;
        _speed := c_int 0;
        _status := c_int 0;
        _process := {| spawned := false |} |}.
End Init.

(** *** Lifecycle *)

Definition start (self : t) : t * res unit :=
  if _status self =? 1 then
    (self, Raise (RuntimeError "The feedback is already started."))
  else
    let self := with_status self (c_int 1) in
    match Process_start (_process self) with
    | Ok p => (with_process self p, Ok tt)
    | Raise e => (self, Raise e)
    end.

Definition stop (self : t) : t * res unit :=
  if _status self =? 0 then
    (self, Raise (RuntimeError "The feedback is already stopped."))
  else
    let self := with_status self (c_int 0) in
    match Process_join (_process self) with
    | Ok p => (with_process self p, Ok tt)
    | Raise e => (self, Raise e)
    end.

Definition __del__ (self : t) : t * res unit :=
  if _status self =? 1 then stop self else (self, Ok tt).

(** *** Properties *)

(** Attribute values, for access by name. *)
Inductive attr : Type :=
| AKwargs (kw : gmap string pyval)
| APath (p : string)
| AVal (v : pyval)
| ACell (value : Z)
| AProcess (p : Process)
| AMember (name : string).

Definition instance_dict (self : t) : gmap string attr :=
  <["_winkwargs" := AKwargs (_winkwargs self)]>
  (<["_image" := APath (_image self)]>
  (<["_size" := AVal (_size self)]>
  (<["_offset" := AVal (_offset self)]>
  (<["_speed" := ACell (_speed self)]>
  (<["_status" := ACell (_status self)]>
  (<["_process" := AProcess (_process self)]> ∅)))))).

(** The names the class body defines (methods and properties). *)
Definition class_dict : gset string :=
  list_to_set
    ["__init__"; "start"; "stop"; "__del__"; "_main_loop";
     "_normalize_size"; "image"; "offset"; "size"; "speed"; "active"]%string.

(** [self.name]: the instance's attributes, then the class's; the class
    defines no [__getattr__] fallback. *)
Definition getattr (self : t) (name : string) : res attr :=
  match instance_dict self !! name with
  | Some a => Ok a
  | None =>
      if decide (name ∈ class_dict) then Ok (AMember name)
      else Raise (AttributeError name)
  end.

Definition image (self : t) : res attr := getattr self "_iamge".
Definition offset (self : t) : res attr := getattr self "_offset".
Definition size (self : t) : res attr := getattr self "_size".

Definition speed (self : t) : Z := _speed self.

(** The setter of [speed]. *)
Definition speed_setter (self : t) (speed : number) : t * res unit :=
  match py_int speed with
  | Raise e => (self, Raise e)
  | Ok k =>
      if py_eq_int speed k then
        match cell_store speed with
        | Ok z => (with_speed self z, Ok tt)
        | Raise e => (self, Raise e)
        end
      else
        (self, Raise (AssertionError "The provided speed must be an integer."))
  end.

Definition active (self : t) : bool := negb (_status self =? 0).

(** *** The display process *)

(** A numpy value as [_normalize_size] returns it: [np.array] of a pair,
    or of a bare number. *)
Inductive ndarray : Type :=
| Scalar (x : float)
| Array (xs : list float).

(** [_normalize_size(winsize, size)], [winsize] the pixel size of the
    window (an array of two ints). *)
Definition _normalize_size (winsize : Z * Z) (size : float) : ndarray :=
  let '(w0, w1) := winsize in
  if w0 =? w1 then Array [size; size]
  else if w1 <? w0 then
    Array [size; fdiv (fmul size (Fin (inject_Z w0))) (Fin (inject_Z w1))]
  else if w0 <? w1 then
    Array [fdiv (fmul size (Fin (inject_Z w1))) (Fin (inject_Z w0)); size]
  else Scalar size.

(** [a * \[k0, k1\]]: numpy multiplies element by element, a bare
    number with each element. *)
Definition times (a : ndarray) (ks : list Z) : list float :=
  match a with
  | Scalar x => (λ k, fmul x (Fin (inject_Z k))) <$> ks
  | Array xs => zip_with (λ x k, fmul x (Fin (inject_Z k))) xs ks
  end.

(** What the loop relies on of PsychoPy: a window that counts its flips
    and can be closed, and image stimuli with a size, a position and an
    orientation (0 when created). *)
Record Window : Type := {
  win_size : Z * Z;
  flips : nat;
  closed : bool;
}.

Record ImageStim : Type := {
  stim_size : list float;
  pos : list float;
  ori : float;
  autoDraw : bool;
}.

Record display : Type := {
  win : Window;
  lwheel : ImageStim;
  rwheel : ImageStim;
}.

(** The values one pass of the display loop reads from the shared cells:
    [status.value] once and [speed.value] twice, once for each wheel.
    The parent may write between any two reads. *)
Record frame : Type := {
  status_value : Z;
  speed_left : Z;
  speed_right : Z;
}.

Definition flip (w : Window) : Window :=
  {| win_size := win_size w; flips := S (flips w); closed := closed w |}.

Definition close (w : Window) : Window :=
  {| win_size := win_size w; flips := flips w; closed := true |}.

Definition turn (stim : ImageStim) (by_ : float) : ImageStim :=
  {| stim_size := stim_size stim; pos := pos stim;
     ori := fadd (ori stim) by_; autoDraw := autoDraw stim |}.

(** The window is opened, the wheels are created, set to draw
    themselves, and the first frame is presented. *)
Definition open_display (pixels : Z * Z) (size offset : float) : display :=
  let size := _normalize_size pixels size in
  {| win := flip {| win_size := pixels; flips := 0; closed := false |};
     lwheel := {| stim_size := times size [1; 1];
                  pos := [fneg offset; Fin 0];
                  ori := Fin 0; autoDraw := true |};
     rwheel := {| stim_size := times size [-1; 1];
                  pos := [offset; Fin 0];
                  ori := Fin 0; autoDraw := true |} |}.

(** One pass that finds the status set: both wheels turn, in opposite
    directions, and the frame is presented. *)
Definition draw_frame (f : frame) (d : display) : display :=
  {| win := flip (win d);
     lwheel := turn (lwheel d) (Fin (inject_Z (speed_left f)));
     rwheel := turn (rwheel d) (fneg (Fin (inject_Z (speed_right f)))) |}.

(** How the display process stands: still looping when the script of
    reads runs out, or returned after closing its window. *)
Inductive display_outcome : Type :=
| Showing (d : display)
| Closed (d : display).

(** [while True: if status.value == 0: break ...], then [win.close()]. *)
Fixpoint display_loop (frames : list frame) (d : display) : display_outcome :=
  match frames with
  | [] => Showing d
  | f :: frames =>
      if status_value f =? 0 then
        Closed {| win := close (win d); lwheel := lwheel d;
                  rwheel := rwheel d |}
      else display_loop frames (draw_frame f d)
  end.

(** [_main_loop]; [pixels] is the size of the window PsychoPy opens for
    [winkargs], and the wheel image is not looked into. *)
Definition _main_loop (winkargs : gmap string pyval) (image : string)
    (size offset : float) (pixels : Z * Z) (frames : list frame)
    : display_outcome :=
  display_loop frames (open_display pixels size offset).

End DoubleSpinningWheel.

(** * The control loop: [nfb_double_spinning_wheel]

    The loop is embedded from the creation of the buffer of metrics to
    the final [feedback.stop()], given the handle [feedback] as
    constructed and the session [duration].

    Its environment is a script with one entry per evaluation of the loop
    condition.  The wall clock ([time.time()]) advances by [wait] before
    the condition is evaluated and by [acq] while the window is acquired
    and its band power computed; [metric] is the averaged band power of
    that window ([bandpower] lives in [demo_realtime.metrics], outside
    the files embedded here, and [np.average] of its result is taken as
    given).  Everything else takes no time. *)

Local Open Scope nat_scope.

Record cycle : Type := {
  wait : Q;
  acq : Q;
  metric : float;
}.

(** What a run does, for the record: the writes into the buffer of
    metrics and the calls on the handle, each logged with the clock and
    the value of [inc] (the number of metrics stored so far) at that
    point.  The log is not read by the code. *)
Inductive event : Type :=
| Append (m : float)
| Start
| SetSpeed (v : Z)
| Stop.

Record entry : Type := {
  at_time : Q;
  at_inc : nat;
  what : event;
}.

Record state : Type := {
  metrics : list float;
  inc : nat;
  start : Q;
  now : Q;
  feedback : DoubleSpinningWheel.t;
  log : list entry;
}.

Definition tick (d : Q) (s : state) : state :=
  {| metrics := metrics s; inc := inc s; start := start s;
     now := (now s + d)%Q; feedback := feedback s; log := log s |}.

(** [metrics[inc % 100] = metric; inc += 1] *)
Definition store (m : float) (s : state) : state :=
  {| metrics := <[inc s mod 100 := m]> (metrics s); inc := inc s + 1;
     start := start s; now := now s; feedback := feedback s;
     log := log s ++
       [{| at_time := now s; at_inc := inc s + 1; what := Append m |}] |}.

(** [start = time.time()] *)
Definition reset_start (s : state) : state :=
  {| metrics := metrics s; inc := inc s; start := now s;
     now := now s; feedback := feedback s; log := log s |}.

(** A call on the handle: logged, then run on the handle's state. *)
Definition invoke (m : event)
    (f : DoubleSpinningWheel.t → DoubleSpinningWheel.t * res unit)
    (s : state) : state * res unit :=
  let '(fb, r) := f (feedback s) in
  ({| metrics := metrics s; inc := inc s; start := start s; now := now s;
      feedback := fb;
      log := log s ++ [{| at_time := now s; at_inc := inc s; what := m |}]
   |}, r).

(** [np.clip((metric - min_) / (max_ - min_), 0, 1) * 100] *)
Definition feedback_perc (metric min_ max_ : float) : float :=
  fmul (clip (fdiv (fsub metric min_) (fsub max_ min_)) (Fin 0) (Fin 1))
       (Fin 100).

(** The end of the loop body: the feedback range, the feedback value and
    [feedback.speed = int(feedback_perc)]. *)
Definition update_feedback (metric : float) (s : state) : state * res unit :=
  let min_ := percentile (metrics s) 5 in
  let max_ := percentile (metrics s) 95 in
  match int (feedback_perc metric min_ max_) with
  | Raise e => (s, Raise e)
  | Ok v =>
      invoke (SetSpeed v)
        (fun fb => DoubleSpinningWheel.speed_setter fb (PyInt v)) s
  end.

(** One pass through the body of the [while] loop. *)
Definition iteration (c : cycle) (s : state) : state * res unit :=
  let s := tick (acq c) s in
  let metric := metric c in
  let s := store metric s in
  if inc s <? length (metrics s) then
    (reset_start s, Ok tt)
  else
    let '(s, r) :=
      if inc s =? length (metrics s)
      then invoke Start DoubleSpinningWheel.start s
      else (s, Ok tt) in
    match r with
    | Raise e => (s, Raise e)
    | Ok _ => update_feedback metric s
    end.

(** How far a run got: the script ran out with the loop still going, the
    code returned, or it raised. *)
Inductive outcome : Type :=
| Running (s : state)
| Done (s : state)
| Raised (e : exn) (s : state).

(** [while time.time() - start <= duration: ...]; [Done] is the exit of
    the loop through its condition. *)
Fixpoint loop (duration : Q) (script : list cycle) (s : state) : outcome :=
  match script with
  | [] => Running s
  | c :: script =>
      let s := tick (wait c) s in
      if Qle_bool (now s - start s) duration then
        match iteration c s with
        | (s, Ok _) => loop duration script s
        | (s, Raise e) => Raised e s
        end
      else Done s
  end.

(** [metrics = np.ones(100) * np.nan; inc = 0; ...; start = time.time()],
    the clock reading [t0] at that point. *)
Definition init (fb : DoubleSpinningWheel.t) (t0 : Q) : state :=
  {| metrics := map (fun x => fmul x NaN) (replicate 100 (Fin 1));
     inc := 0; start := t0; now := t0; feedback := fb; log := [] |}.

(** The loop and the statement after it, [feedback.stop()]. *)
Definition nfb_double_spinning_wheel (fb : DoubleSpinningWheel.t)
    (duration t0 : Q) (script : list cycle) : outcome :=
  match loop duration script (init fb t0) with
  | Done s =>
      match invoke Stop DoubleSpinningWheel.stop s with
      | (s, Ok _) => Done s
      | (s, Raise e) => Raised e s
      end
  | o => o
  end.

(** A handle as [__init__] leaves it: both cells at 0, no process
    spawned. *)
Definition fresh (fb : DoubleSpinningWheel.t) : Prop :=
  DoubleSpinningWheel._status fb = 0%Z ∧
  DoubleSpinningWheel._speed fb = 0%Z ∧
  spawned (DoubleSpinningWheel._process fb) = false.

(** * Reference definitions and concrete inputs *)

(** The feedback value in the specification's words, on rationals:
    [clip((m - low) / (high - low), 0, 1) * 100], truncated. *)
Definition Qclip (x lo hi : Q) : Q :=
  if negb (Qle_bool lo x) then lo
  else if negb (Qle_bool x hi) then hi
  else x.


(** [xs] appended to the buffer one after the other, as successive
    passes through the loop body do. *)
Definition fill (xs : list float) (s : state) : state :=
  foldl (λ s m, store m s) s xs.

(** The state a run ended (or was left) in. *)
Definition final (o : outcome) : state :=
  match o with
  | Running s | Done s | Raised _ s => s
  end.

Definition is_start (e : entry) : bool :=
  match what e with Start => true | _ => false end.

Definition is_append (e : entry) : bool :=
  match what e with Append _ => true | _ => false end.

(** A handle built with the default size and offset and no further
    keyword, in an installation where every check of [__init__] passes. *)
Definition default_wheel : DoubleSpinningWheel.t :=
  {| DoubleSpinningWheel._winkwargs :=
       <["color" := PyTuple [Num (PyInt (-1)); Num (PyInt (-1));
                             Num (PyInt (-1))]]>
       (<["winType" := PyStr "pyglet"]>
       (<["units" := PyStr "norm"]> ∅));
     DoubleSpinningWheel._image :=
       "demo_realtime/feedbacks/resources/wheel.png";
     DoubleSpinningWheel._size := Num (PyFloat (Fin 0.4));
     DoubleSpinningWheel._offset := Num (PyFloat (Fin 0.5));
     DoubleSpinningWheel._speed := 0;
     DoubleSpinningWheel._status := 0;
     DoubleSpinningWheel._process := {| spawned := false |} |}.

(** Scripts: [n] cycles of one second each whose metrics climb from 0; a
    run that is held up for 31 seconds before the loop condition is first
    evaluated; and a run whose 100th acquisition takes 31 seconds. *)
Definition climb (n : nat) : list float :=
  (λ k, Fin (inject_Z (Z.of_nat k))) <$> seq 0 n.

Definition ramp_cycles (n : nat) : list cycle :=
  (λ m, {| wait := 0; acq := 1; metric := m |}) <$> climb n.

Definition stalled : list cycle :=
  [{| wait := 31; acq := 1; metric := Fin 5 |}].

Definition slow_fill : list cycle :=
  ramp_cycles 99 ++
  [{| wait := 0; acq := 31; metric := Fin 99 |};
   {| wait := 0; acq := 1; metric := Fin 100 |}].

(** Loop states with a full buffer: of the numbers 0 to 99, and of 100
    times the number 5; and the range of the former. *)
Definition ramp_state : state := fill (climb 100) (init default_wheel 0).

Definition flat_state : state :=
  fill (replicate 100 (Fin 5)) (init default_wheel 0).

Definition ramp_low : Q :=
  Eval vm_compute in
    match percentile (metrics ramp_state) 5 with Fin q => q | _ => 0%Q end.

Definition ramp_high : Q :=
  Eval vm_compute in
    match percentile (metrics ramp_state) 95 with Fin q => q | _ => 0%Q end.

Definition flat_low : Q :=
  Eval vm_compute in
    match percentile (metrics flat_state) 5 with Fin q => q | _ => 0%Q end.

Definition flat_high : Q :=
  Eval vm_compute in
    match percentile (metrics flat_state) 95 with Fin q => q | _ => 0%Q end.

(** A session that fills the buffer, gives feedback once more and is
    then held up past its duration. *)
Definition full_session : list cycle := ramp_cycles 101 ++ stalled.

(** A session whose 100th window has no number for a metric. *)
Definition nan_session : list cycle :=
  ramp_cycles 99 ++ [{| wait := 0; acq := 1; metric := NaN |}].

Definition terminated (o : outcome) : bool :=
  match o with Running _ => false | _ => true end.

(** The shape of the log of a run.  It starts with the appends of the
    warm-up, numbered from 1 to at most 99, and the clock origin [start]
    is the time of the last of them (the reading [t0] taken before the
    loop if there is none). *)
Definition warmup_log (t0 : Q) (s : state) (w : list entry) : Prop :=
  Forall (λ e, is_append e = true) w ∧
  at_inc <$> w = seq 1 (Nat.min (inc s) 99) ∧
  start s = default t0 (at_time <$> last w).

(** Nothing follows while fewer than 100 metrics are stored.  After that
    come the 100th append and, at once, the call of [start()], and then
    entries that are not a call of [start()]. *)
Definition active_log (s : state) (rest : list entry) : Prop :=
  if decide (inc s < 100) then rest = []
  else ∃ m t rest',
    rest = {| at_time := t; at_inc := 100; what := Append m |}
        :: {| at_time := t; at_inc := 100; what := Start |} :: rest' ∧
    Forall (λ e, is_start e = false ∧ 100 ≤ at_inc e) rest'.

Definition run_inv (fb : DoubleSpinningWheel.t) (t0 : Q) (s : state) : Prop :=
  length (metrics s) = 100 ∧
  (inc s < 100 → feedback s = fb) ∧
  ∃ w rest, log s = w ++ rest ∧ warmup_log t0 s w ∧ active_log s rest.

(** * The rest of the code *)

(** The passes of the display loop that draw a frame: those before the
    first one that reads a status of 0. *)
Fixpoint drawn_frames (frames : list DoubleSpinningWheel.frame)
    : list DoubleSpinningWheel.frame :=
  match frames with
  | [] => []
  | f :: frames =>
      if (DoubleSpinningWheel.status_value f =? 0)%Z then []
      else f :: drawn_frames frames
  end.

Definition sum_Z (zs : list Z) : Z := foldr Z.add 0%Z zs.

(** A pass that draws at speed 7, then one that reads a status of 0. *)
Definition two_frames : list DoubleSpinningWheel.frame :=
  [{| DoubleSpinningWheel.status_value := 1;
      DoubleSpinningWheel.speed_left := 7;
      DoubleSpinningWheel.speed_right := 7 |};
   {| DoubleSpinningWheel.status_value := 0;
      DoubleSpinningWheel.speed_left := 9;
      DoubleSpinningWheel.speed_right := 9 |}].

(** [enumerate(l)] *)
Definition enumerate {A} (l : list A) : list (nat * A) :=
  imap (λ k x, (k, x)) l.

(** [ch in ("O1", "O2")] *)
Definition occipital (ch : string) : bool :=
  String.eqb ch "O1" || String.eqb ch "O2".

(** [\[k for k, ch in enumerate(ch_names) if ch in ("O1", "O2")\]] *)
Definition ch_idx (ch_names : list string) : list nat :=
  fst <$> List.filter (λ p, occipital p.2) (enumerate ch_names).

(** The start of [nfb_double_spinning_wheel], to the creation of the
    receiver and of the feedback. *)
Section Setup.
(** [set_log_level], [_check_type] and [import_optional_dependency] live
    in [demo_realtime.utils] and [StreamReceiver] in [bsl], all outside
    the files embedded here. *)
Variable receiver : Type.
Variable set_log_level : pyval → res unit.
Variable _check_type : pyval → list string → string → res unit.
Variable StreamReceiver : pyval → pyval → pyval → res receiver.
Variable import_optional_dependency : string → res unit.
Variable wheel_png_is_file : bool.

(** [assert 0 < v] *)
Definition assert_positive (v : pyval) : res unit :=
  positive <- py_gt_int v 0 ;;
  if (positive : bool) then Ok tt else Raise (AssertionError "").

Definition setup (stream_name winsize duration verbose : pyval)
    : res (receiver * DoubleSpinningWheel.t) :=
  _ <- set_log_level verbose ;;
  _ <- _check_type stream_name ["str"] "stream_name" ;;
  _ <- _check_type winsize ["numeric"] "winsize" ;;
  _ <- assert_positive winsize ;;
  _ <- _check_type duration ["numeric"] "duration" ;;
  _ <- assert_positive duration ;;
  sr <- StreamReceiver winsize winsize stream_name ;;
  feedback <- DoubleSpinningWheel.__init__ import_optional_dependency
                _check_type wheel_png_is_file
                (PyTuple [Num (PyInt 800); Num (PyInt 800)])
                (Num (PyFloat (Fin 0.5))) ∅ ;;
  Ok (sr, feedback).
End Setup.

(** The display a run of the display process ended (or was left) with. *)
Definition shown (o : DoubleSpinningWheel.display_outcome)
    : DoubleSpinningWheel.display :=
  match o with
  | DoubleSpinningWheel.Showing d | DoubleSpinningWheel.Closed d => d
  end.

Definition has_returned (o : DoubleSpinningWheel.display_outcome) : bool :=
  match o with
  | DoubleSpinningWheel.Showing _ => false
  | DoubleSpinningWheel.Closed _ => true
  end.

(** The appends of a log, in order. *)
Definition appended (l : list entry) : list float :=
  omap (λ e, match what e with Append m => Some m | _ => None end) l.

Definition is_stop (e : entry) : bool :=
  match what e with Stop => true | _ => false end.

(** What holds of the handle and of the log during a run that was given
    a fresh handle. *)
Definition wheel_inv (fb : DoubleSpinningWheel.t) (s : state) : Prop :=
  length (metrics s) = 100 ∧
  Forall (λ e, is_stop e = false) (log s) ∧
  (inc s < 100 → feedback s = fb) ∧
  (100 ≤ inc s →
     DoubleSpinningWheel._status (feedback s) = 1%Z ∧
     spawned (DoubleSpinningWheel._process (feedback s)) = true ∧
     (0 ≤ DoubleSpinningWheel._speed (feedback s) ≤ 100)%Z).

Definition nan_raised (fb : DoubleSpinningWheel.t) (e : exn) (s : state)
    : Prop :=
  e = ValueError "cannot convert float NaN to integer" ∧
  100 ≤ inc s ∧ wheel_inv fb s.

(** What holds of the speed during any run. *)
Definition speed_inv (fb : DoubleSpinningWheel.t) (s : state) : Prop :=
  length (metrics s) = 100 ∧
  Forall (λ e, ∀ v, what e = SetSpeed v → (0 ≤ v ≤ 100)%Z) (log s) ∧
  (DoubleSpinningWheel._speed (feedback s) = DoubleSpinningWheel._speed fb ∨
   (0 ≤ DoubleSpinningWheel._speed (feedback s) ≤ 100)%Z).

(** The number of speed updates in a log. *)
Definition is_set_speed (e : entry) : bool :=
  match what e with SetSpeed _ => true | _ => false end.

Definition updates (l : list entry) : nat :=
  length (List.filter is_set_speed l).

(** * Sessions in which the acquisition can fail

    [sr.acquire()], [sr.get_window()], [bandpower] and [np.average],
    lines 64 to 70, are calls into code outside the files embedded here,
    and each of them can raise.  A window of such a session carries the
    result of these lines: the averaged band power, or the exception
    raised on the way.  Nothing in the function catches it, so it leaves
    the loop and the function at once, before the metric is stored and
    without reaching [feedback.stop()]. *)
Record window : Type := {
  pause : Q;
  took : Q;
  acquired : res float;
}.

(** One pass through the body of the [while] loop, lines 64 to 87. *)
Definition pass (w : window) (s : state) : state * res unit :=
  match acquired w with
  | Raise e => (tick (took w) s, Raise e)
  | Ok m => iteration {| wait := pause w; acq := took w; metric := m |} s
  end.

Fixpoint session_loop (duration : Q) (script : list window) (s : state)
    : outcome :=
  match script with
  | [] => Running s
  | w :: script =>
      let s := tick (pause w) s in
      if Qle_bool (now s - start s) duration then
        match pass w s with
        | (s, Ok _) => session_loop duration script s
        | (s, Raise e) => Raised e s
        end
      else Done s
  end.

(** The loop and the statement after it, [feedback.stop()]. *)
Definition session (fb : DoubleSpinningWheel.t) (duration t0 : Q)
    (script : list window) : outcome :=
  match session_loop duration script (init fb t0) with
  | Done s =>
      match invoke Stop DoubleSpinningWheel.stop s with
      | (s, Ok _) => Done s
      | (s, Raise e) => Raised e s
      end
  | o => o
  end.

(** A cycle as a window whose acquisition returns. *)
Definition recorded (c : cycle) : window :=
  {| pause := wait c; took := acq c; acquired := Ok (metric c) |}.

(** A session that loses its stream after 102 windows. *)
Definition broken_session : list window :=
  (recorded <$> ramp_cycles 102) ++
  [{| pause := 0; took := 1;
      acquired := Raise (RuntimeError "stream lost") |}].

(** Whether the window stored last is still without its speed update:
    the log ends with the append of the 100th or of a later window, or
    with the call of [start()]. *)
Definition pending (l : list entry) : bool :=
  match last l with
  | Some e =>
      match what e with
      | Append _ => 100 <=? at_inc e
      | Start => true
      | _ => false
      end
  | None => false
  end.

(** * The feedback value in binary64

    The finite numbers of [float] are exact rationals.  numpy computes
    in binary64: each operation returns the exact result rounded, and the
    integer pushed to the wheel, a truncation, can depend on that
    rounding.  Lines 84 to 87 are therefore embedded a second time, over
    a rounding function [round] applied to the finite result of every
    operation. *)

(** ** Rounding to binary64

    IEEE 754 rounding to nearest, ties to even, as numpy's [float64]
    has it: 53 significant bits, the unit in the last place no smaller
    than [2 ^ -1074], and an infinity for a result that rounds to
    [2 ^ 1024] or beyond. *)






(** ** Lines 84 to 87 over a rounding function *)

Section Rounding.

Variable round : Q → float.

(** The result of an operation: rounded if finite, an infinity or [NaN]
    as it is. *)
Definition rounded (x : float) : float :=
  match x with
  | Fin q => round q
  | _ => x
  end.

Definition sub_fp (x y : float) : float := rounded (fsub x y).
Definition div_fp (x y : float) : float := rounded (fdiv x y).
Definition mul_fp (x y : float) : float := rounded (fmul x y).

(** [np.clip((metric - min_) / (max_ - min_), 0, 1) * 100] *)
Definition feedback_perc_fp (metric min_ max_ : float) : float :=
  mul_fp
    (clip (div_fp (sub_fp metric min_) (sub_fp max_ min_)) (Fin 0) (Fin 1))
    (Fin 100).

(** [feedback.speed = int(feedback_perc)], given the range. *)
Definition push_feedback (metric min_ max_ : float) (s : state)
    : state * res unit :=
  match int (feedback_perc_fp metric min_ max_) with
  | Raise e => (s, Raise e)
  | Ok v =>
      invoke (SetSpeed v)
        (fun fb => DoubleSpinningWheel.speed_setter fb (PyInt v)) s
  end.

End Rounding.




(** * Proof steps *)



(** * Properties of the floating point model *)

Lemma Qsign_Eq q : Qsign q = Eq ↔ (q == 0)%Q.
Proof. unfold Qsign. symmetry. apply Qeq_alt. Qed.

Lemma Qsign_Lt q : Qsign q = Lt ↔ (q < 0)%Q.
Proof. unfold Qsign. symmetry. apply Qlt_alt. Qed.

Lemma Qsign_Gt q : Qsign q = Gt ↔ (0 < q)%Q.
Proof. unfold Qsign. symmetry. apply Qgt_alt. Qed.

Lemma Qsign_sub a b : Qsign (a + - b) = (a ?= b)%Q.
Proof.
  destruct (a ?= b)%Q eqn:E.
  - apply Qsign_Eq. apply Qeq_alt in E. lra.
  - apply Qsign_Lt. apply Qlt_alt in E. lra.
  - apply Qsign_Gt. apply Qgt_alt in E. lra.
Qed.

Lemma Qle_bool_false x y : Qle_bool x y = false ↔ (y < x)%Q.
Proof.
  split; intros H.
  - apply Qnot_le_lt. intros Hle. apply Qle_bool_iff in Hle. congruence.
  - destruct (Qle_bool x y) eqn:E; [|done].
    apply Qle_bool_iff in E. lra.
Qed.

Lemma Qtrunc_nonneg q : (0 <= q)%Q → Qtrunc q = Qfloor q.
Proof.
  destruct q as [n d]. unfold Qle, Qtrunc. simpl. intros H.
  apply Z.quot_div_nonneg; lia.
Qed.

(** Truncation of a number between 0 and 100 stays there, and does not
    depend on how the rational is written. *)
Lemma Qtrunc_percent x y :
  (x == y)%Q → (0 <= x)%Q → (x <= 100)%Q →
  Qtrunc x = Qtrunc y ∧ (0 ≤ Qtrunc x ≤ 100)%Z.
Proof.
  intros Hxy H0 H100.
  rewrite !Qtrunc_nonneg by lra. split.
  - by rewrite Hxy.
  - split.
    + change 0%Z with (Qfloor 0). by apply Qfloor_resp_le.
    + change 100%Z with (Qfloor 100). by apply Qfloor_resp_le.
Qed.

(** [np.clip] of a finite number against the finite bounds 0 and 1. *)
Lemma clip_unit x :
  ∃ y, clip (Fin x) (Fin 0) (Fin 1) = Fin y ∧
       (y == Qclip x 0 1)%Q ∧ (0 <= y)%Q ∧ (y <= 1)%Q.
Proof.
  unfold clip, maximum, minimum, Qclip. simpl.
  destruct (Qle_bool x 0) eqn:E0; simpl.
  - apply Qle_bool_iff in E0.
    exists 0%Q. split; [done|].
    destruct (Qle_bool 0 x) eqn:E0'; simpl.
    + apply Qle_bool_iff in E0'.
      assert (Qle_bool x 1 = true) as -> by (apply Qle_bool_iff; lra).
      simpl. lra.
    + lra.
  - apply Qle_bool_false in E0.
    assert (Qle_bool 0 x = true) as -> by (apply Qle_bool_iff; lra).
    simpl. destruct (Qle_bool x 1) eqn:E1; simpl.
    + apply Qle_bool_iff in E1. exists x. split; [done|]. lra.
    + apply Qle_bool_false in E1. exists 1%Q. split; [done|]. lra.
Qed.


(** An infinite metric is clipped like any other, given a range of
    finite bounds. *)
Lemma feedback_perc_infinite (low high : Q) :
  (low < high)%Q →
  int (feedback_perc PInf (Fin low) (Fin high)) = Ok 100%Z ∧
  int (feedback_perc NInf (Fin low) (Fin high)) = Ok 0%Z.
Proof.
  intros Hlt. unfold feedback_perc. simpl.
  assert (Qsign (high + - low) = Gt) as -> by (apply Qsign_Gt; lra).
  done.
Qed.

(** * Properties of [np.percentile] on a full buffer *)

(** A [NaN] in the buffer (an unfilled slot, or a metric that is not a
    number) makes every percentile [NaN]: a range with [low < high] is
    evidence that the buffer, and the metric just stored in it, hold
    none. *)
Lemma percentile_nan (a : list float) q :
  NaN ∈ a → percentile a q = NaN.
Proof.
  intros Hin. unfold percentile.
  assert (existsb isnan a = true) as ->; [|done].
  apply existsb_exists. exists NaN. split; [|done].
  by apply list_elem_of_In.
Qed.

#[global] Instance sort_le_total : Total sort_le.
Proof.
  intros x y. destruct y as [| | |b]; [by left| | |];
    (destruct x as [| | |a]; [by right| | |]); simpl; auto.
  destruct (Qle_bool a b) eqn:E; [by left|right].
  apply Qle_bool_false in E. apply Qle_bool_iff. lra.
Qed.

#[global] Instance sort_le_trans : Transitive sort_le.
Proof.
  intros x y z Hxy Hyz.
  destruct z as [| | |c]; [done| | |];
    (destruct y as [| | |b]; simpl in Hyz; try done);
    (destruct x as [| | |a]; simpl in Hxy; try done); simpl.
  apply Qle_bool_iff in Hxy, Hyz. apply Qle_bool_iff. lra.
Qed.

Lemma sort_le_refl_finite q : sort_le (Fin q) (Fin q).
Proof. simpl. apply Qle_bool_iff. lra. Qed.















(** * Rounding *)






Lemma rounded_exact round x :
  (∀ q, round q = Fin q) → rounded round x = x.
Proof. intros H. destruct x; try done. apply H. Qed.

(** With exact arithmetic, lines 84 to 87 over a rounding function are
    the end of the loop body as embedded in [update_feedback]. *)
Lemma push_feedback_exact m s :
  push_feedback Fin m (percentile (metrics s) 5) (percentile (metrics s) 95) s
    = update_feedback m s.
Proof.
  unfold push_feedback, update_feedback, feedback_perc_fp, feedback_perc,
    mul_fp, div_fp, sub_fp.
  by rewrite !(rounded_exact Fin) by done.
Qed.

(** *** binary64 *)












(** * Properties of the feedback value *)

Lemma c_int_small z : (- 2 ^ 31 ≤ z < 2 ^ 31)%Z → c_int z = z.
Proof. intros H. unfold c_int. rewrite Z.mod_small; lia. Qed.

Lemma speed_setter_int self z :
  DoubleSpinningWheel.speed_setter self (PyInt z)
    = (DoubleSpinningWheel.with_speed self (c_int z), Ok tt).
Proof.
  unfold DoubleSpinningWheel.speed_setter. simpl. by rewrite Z.eqb_refl.
Qed.






(** C6.  When the range of the buffer has zero width ([high == low]), the
    loop still evaluates [(metric - low) / (high - low)]: the denominator
    is zero and the quotient is the IEEE result of the division, [NaN]
    or an infinity.  Nothing guards it: a metric equal to the bounds
    makes [int] raise, any other one drives the wheel at 0 or 100. *)
Theorem zero_width_range_unguarded (s : state) (m low high : Q) :
  percentile (metrics s) 5 = Fin low →
  percentile (metrics s) 95 = Fin high →
  (high == low)%Q →
  (∃ d, fsub (Fin high) (Fin low) = Fin d ∧ (d == 0)%Q) ∧
  fdiv (fsub (Fin m) (Fin low)) (fsub (Fin high) (Fin low))
    = match (m ?= low)%Q with Eq => NaN | Lt => NInf | Gt => PInf end ∧
  update_feedback (Fin m) s
    = match (m ?= low)%Q with
      | Eq => (s, Raise (ValueError "cannot convert float NaN to integer"))
      | Lt => invoke (SetSpeed 0)
                (λ fb, DoubleSpinningWheel.speed_setter fb (PyInt 0)) s
      | Gt => invoke (SetSpeed 100)
                (λ fb, DoubleSpinningWheel.speed_setter fb (PyInt 100)) s
      end.
Proof.
  intros Hlow Hhigh Heq.
  assert (Qsign (high + - low) = Eq) as Hd by (apply Qsign_Eq; lra).
  split_and!.
  - exists (high + - low)%Q. split; [done|]. lra.
  - simpl. rewrite Hd, Qsign_sub. by destruct (m ?= low)%Q.
  - unfold update_feedback, feedback_perc. rewrite Hlow, Hhigh. simpl.
    rewrite Hd, Qsign_sub. by destruct (m ?= low)%Q.
Qed.

(** * The buffer of metrics *)

Lemma init_length fb t0 : length (metrics (init fb t0)) = 100.
Proof. reflexivity. Qed.

Lemma store_metrics m s :
  metrics (store m s) = <[inc s mod 100 := m]> (metrics s).
Proof. reflexivity. Qed.

Lemma store_inc m s : inc (store m s) = inc s + 1.
Proof. reflexivity. Qed.

Lemma fill_snoc xs x s : fill (xs ++ [x]) s = store x (fill xs s).
Proof. unfold fill. by rewrite foldl_snoc. Qed.

Lemma fill_inc xs s : inc (fill xs s) = inc s + length xs.
Proof.
  induction xs as [|x xs IH] using rev_ind.
  - simpl. lia.
  - rewrite fill_snoc, store_inc, length_app. simpl. lia.
Qed.

Lemma fill_length xs s : length (metrics (fill xs s)) = length (metrics s).
Proof.
  induction xs as [|x xs IH] using rev_ind; [done|].
  rewrite fill_snoc, store_metrics. by rewrite length_insert.
Qed.

Lemma mod_100_ne a b : a < b → b < a + 100 → a mod 100 ≠ b mod 100.
Proof.
  intros Hab Hba Heq.
  pose proof (Nat.div_mod_eq a 100). pose proof (Nat.div_mod_eq b 100).
  lia.
Qed.

(** Slot [k mod 100] holds the [k]-th appended value as long as fewer
    than 100 values were appended after it. *)
Lemma fill_lookup xs s k :
  inc s = 0 → length (metrics s) = 100 →
  k < length xs → length xs ≤ k + 100 →
  metrics (fill xs s) !! (k mod 100) = xs !! k.
Proof.
  intros Hinc Hlen. revert k.
  induction xs as [|x xs IH] using rev_ind; intros k Hk Hrecent.
  - simpl in Hk. lia.
  - rewrite fill_snoc, store_metrics, fill_inc, Hinc, Nat.add_0_l.
    rewrite length_app in Hk, Hrecent. simpl in Hk, Hrecent.
    destruct (decide (k = length xs)) as [->|Hne].
    + rewrite list_lookup_insert_eq.
      * by rewrite list_lookup_middle.
      * rewrite fill_length, Hlen. apply Nat.mod_upper_bound. lia.
    + rewrite list_lookup_insert_ne by (apply not_eq_sym, mod_100_ne; lia).
      rewrite lookup_app_l by lia. apply IH; lia.
Qed.

Lemma rotate_index (N i : nat) :
  100 ≤ N → i < 100 →
  rotate_nat_add (N mod 100) i 100 = (N - 100 + i) mod 100.
Proof.
  intros HN Hi. unfold rotate_nat_add.
  pose proof (Nat.div_mod_eq N 100).
  pose proof (Nat.mod_upper_bound N 100).
  pose proof (Nat.div_mod_eq (N - 100 + i) 100).
  pose proof (Nat.mod_upper_bound (N - 100 + i) 100).
  zify. Z.to_euclidean_division_equations. lia.
Qed.

(** Read from the write cursor on, wrapping around, a buffer that has
    been written at least 100 times holds the last 100 values in the
    order they arrived. *)
Lemma fill_rotate xs s :
  inc s = 0 → length (metrics s) = 100 → 100 ≤ length xs →
  rotate (length xs mod 100) (metrics (fill xs s))
    = drop (length xs - 100) xs.
Proof.
  intros Hinc Hlen HN. apply list_eq. intros i.
  destruct (decide (i < 100)) as [Hi|Hi].
  - rewrite lookup_rotate_r by (rewrite fill_length; lia).
    rewrite fill_length, Hlen, rotate_index, lookup_drop by done.
    apply fill_lookup; [done..|lia|lia].
  - rewrite !lookup_ge_None_2; [done| |].
    + rewrite length_drop. lia.
    + rewrite length_rotate, fill_length. lia.
Qed.

Lemma rotate_perm {A} n (l : list A) : l ≡ₚ rotate n l.
Proof.
  unfold rotate. rewrite Permutation_app_comm. by rewrite take_drop.
Qed.

(** C2.  After any sequence of [N] appends, [inc] is [N]; the loop takes
    the buffer for full (its test [inc < metrics.size] fails) iff
    [N >= 100]; the next append writes slot [N mod 100] and adds one to
    [inc]; and once at least 100 values were appended the buffer holds
    exactly the 100 most recent ones, the [k]-th in slot [k mod 100]. *)
Theorem ring_buffer fb t0 (xs : list float) :
  let s := fill xs (init fb t0) in
  let N := length xs in
  inc s = N ∧
  ((inc s <? length (metrics s)) = false ↔ 100 ≤ N) ∧
  (∀ m, metrics (store m s) = <[N mod 100 := m]> (metrics s) ∧
        metrics (store m s) !! (N mod 100) = Some m ∧
        inc (store m s) = N + 1) ∧
  (100 ≤ N →
     (∀ k, N - 100 ≤ k < N → metrics s !! (k mod 100) = xs !! k) ∧
     rotate (N mod 100) (metrics s) = drop (N - 100) xs ∧
     metrics s ≡ₚ drop (N - 100) xs).
Proof.
  intros s N.
  assert (inc s = N) as Hinc by (unfold s; by rewrite fill_inc).
  assert (length (metrics s) = 100) as Hlen
    by (unfold s; by rewrite fill_length).
  split_and!.
  - done.
  - rewrite Hinc, Hlen, Nat.ltb_ge. done.
  - intros m. rewrite store_metrics, store_inc, Hinc.
    split_and!; [done| |done].
    apply list_lookup_insert_eq. rewrite Hlen.
    apply Nat.mod_upper_bound. lia.
  - intros HN. split_and!.
    + intros k Hk. apply fill_lookup; [done..|lia|lia].
    + by apply fill_rotate.
    + unfold N, s. rewrite <- (fill_rotate xs (init fb t0)) by done.
      apply rotate_perm.
Qed.

(** * Runs of the control loop *)

(** The three kinds of pass through the loop body. *)
Lemma iteration_warmup c s :
  length (metrics s) = 100 → inc s + 1 < 100 →
  iteration c s = (reset_start (store (metric c) (tick (acq c) s)), Ok tt).
Proof.
  intros Hlen Hinc. unfold iteration.
  rewrite store_inc, store_metrics, length_insert.
  change (inc (tick (acq c) s)) with (inc s).
  change (metrics (tick (acq c) s)) with (metrics s). rewrite Hlen.
  by destruct (Nat.ltb_spec (inc s + 1) 100); [|lia].
Qed.

Lemma iteration_transition c s :
  length (metrics s) = 100 → inc s + 1 = 100 →
  iteration c s =
    let '(s', r) := invoke Start DoubleSpinningWheel.start
                      (store (metric c) (tick (acq c) s)) in
    match r with
    | Raise e => (s', Raise e)
    | Ok _ => update_feedback (metric c) s'
    end.
Proof.
  intros Hlen Hinc. unfold iteration.
  rewrite store_inc, store_metrics, length_insert.
  change (inc (tick (acq c) s)) with (inc s).
  change (metrics (tick (acq c) s)) with (metrics s). rewrite Hlen, Hinc.
  reflexivity.
Qed.

Lemma iteration_active c s :
  length (metrics s) = 100 → 100 < inc s + 1 →
  iteration c s
    = update_feedback (metric c) (store (metric c) (tick (acq c) s)).
Proof.
  intros Hlen Hinc. unfold iteration.
  rewrite store_inc, store_metrics, length_insert.
  change (inc (tick (acq c) s)) with (inc s).
  change (metrics (tick (acq c) s)) with (metrics s). rewrite Hlen.
  destruct (Nat.ltb_spec (inc s + 1) 100); [lia|].
  destruct (Nat.eqb_spec (inc s + 1) 100); [lia|]. reflexivity.
Qed.

(** A call on the handle changes the handle and the log only. *)
Lemma invoke_fields m f s :
  let s' := (invoke m f s).1 in
  metrics s' = metrics s ∧ inc s' = inc s ∧ start s' = start s ∧
  now s' = now s ∧
  log s' = log s ++ [{| at_time := now s; at_inc := inc s; what := m |}].
Proof. unfold invoke. by destruct (f (feedback s)). Qed.

(** So does the update of the feedback, which makes at most one call,
    of the setter of [speed]. *)
Lemma update_feedback_fields m s :
  let s' := (update_feedback m s).1 in
  metrics s' = metrics s ∧ inc s' = inc s ∧ start s' = start s ∧
  now s' = now s ∧
  (log s' = log s ∧ feedback s' = feedback s ∨
   ∃ v, log s' = log s ++
          [{| at_time := now s; at_inc := inc s; what := SetSpeed v |}]).
Proof.
  unfold update_feedback.
  destruct (int _) as [v|e]; simpl.
  - destruct (invoke_fields (SetSpeed v)
                (λ fb, DoubleSpinningWheel.speed_setter fb (PyInt v)) s)
      as (? & ? & ? & ? & ?).
    split_and!; [done..|]. right. by exists v.
  - split_and!; [done..|]. by left.
Qed.

Lemma run_inv_init fb t0 : run_inv fb t0 (init fb t0).
Proof.
  split_and!; [done|done|]. exists [], []. by split_and!.
Qed.

Lemma run_inv_tick fb t0 d s : run_inv fb t0 s → run_inv fb t0 (tick d s).
Proof. done. Qed.

(** Once 100 metrics are stored, entries that are not a call of
    [start()] may be added to the log. *)
Lemma run_inv_more fb t0 s r extra :
  run_inv fb t0 s → 100 ≤ inc s →
  length (metrics r) = 100 → inc s ≤ inc r → start r = start s →
  log r = log s ++ extra →
  Forall (λ e, is_start e = false ∧ 100 ≤ at_inc e) extra →
  run_inv fb t0 r.
Proof.
  intros (_ & _ & w & rest & Hlog & (Hw1 & Hw2 & Hw3) & Hact)
    Hfull Hlen Hinc Hstart Hlogr Hextra.
  split_and!; [done|lia|].
  exists w, (rest ++ extra). unfold warmup_log. split_and!.
  - by rewrite Hlogr, Hlog, (assoc_L (++)).
  - done.
  - rewrite Hw2. f_equal. lia.
  - by rewrite Hstart.
  - unfold active_log in *. case_decide; [lia|]. case_decide; [lia|].
    destruct Hact as (m & t & rest' & -> & Hrest').
    exists m, t, (rest' ++ extra). split; [done|].
    by apply Forall_app.
Qed.

Lemma run_inv_warmup fb t0 c s :
  run_inv fb t0 s → inc s + 1 < 100 →
  run_inv fb t0 (reset_start (store (metric c) (tick (acq c) s))).
Proof.
  intros (Hlen & Hfb & w & rest & Hlog & (Hw1 & Hw2 & Hw3) & Hact) Hinc.
  unfold active_log in Hact. case_decide; [subst rest|lia].
  rewrite app_nil_r in Hlog.
  split_and!.
  - cbn [reset_start store tick metrics]. by rewrite length_insert.
  - intros _. apply Hfb. lia.
  - cbn [reset_start store tick metrics inc start now feedback log].
    eexists (w ++ [_]), []. unfold warmup_log.
    cbn [reset_start store tick inc start now log]. split_and!.
    + by rewrite Hlog, app_nil_r.
    + apply Forall_app. split; [done|]. by repeat constructor.
    + rewrite fmap_app, Hw2.
      replace (Nat.min (inc s) 99) with (inc s) by lia.
      replace (Nat.min (inc s + 1) 99) with (S (inc s)) by lia.
      rewrite seq_S. cbn [fmap list_fmap at_inc]. do 2 f_equal. lia.
    + by rewrite last_snoc.
    + unfold active_log. cbn [reset_start store tick inc].
      by case_decide; [|lia].
Qed.

Lemma run_inv_start fb t0 c s :
  run_inv fb t0 s → inc s + 1 = 100 →
  run_inv fb t0
    (invoke Start DoubleSpinningWheel.start
       (store (metric c) (tick (acq c) s))).1.
Proof.
  intros (Hlen & Hfb & w & rest & Hlog & (Hw1 & Hw2 & Hw3) & Hact) Hinc.
  unfold active_log in Hact. case_decide; [subst rest|lia].
  rewrite app_nil_r in Hlog.
  destruct (invoke_fields Start DoubleSpinningWheel.start
              (store (metric c) (tick (acq c) s)))
    as (Hm & Hi & Hs & Hn & Hl).
  split_and!.
  - rewrite Hm, store_metrics. by rewrite length_insert.
  - rewrite Hi, store_inc. cbn [tick inc]. lia.
  - eexists w, _. unfold warmup_log. split_and!.
    + rewrite Hl. cbn [store tick log]. rewrite Hlog, <- (assoc_L (++)).
      reflexivity.
    + done.
    + rewrite Hw2, Hi, store_inc. cbn [tick inc]. f_equal. lia.
    + by rewrite Hs.
    + unfold active_log. rewrite Hi, store_inc. cbn [tick inc].
      case_decide; [lia|].
      eexists _, _, []. rewrite Hinc. split; [reflexivity|constructor].
Qed.

Lemma run_inv_update fb t0 m s :
  run_inv fb t0 s → 100 ≤ inc s →
  run_inv fb t0 (update_feedback m s).1.
Proof.
  intros Hinv Hfull.
  destruct (update_feedback_fields m s) as (Hm & Hi & Hs & Hn & Hl).
  destruct Hl as [[Hl _]|[v Hl]].
  - apply (run_inv_more fb t0 s _ []); try done.
    + rewrite Hm. apply Hinv.
    + lia.
    + by rewrite app_nil_r.
  - eapply (run_inv_more fb t0 s); try done.
    + rewrite Hm. apply Hinv.
    + lia.
    + repeat constructor. simpl. lia.
Qed.

(** Every pass through the loop body keeps the shape of the log. *)
Lemma run_inv_iteration fb t0 c s :
  run_inv fb t0 s → run_inv fb t0 (iteration c s).1.
Proof.
  intros Hinv. pose proof Hinv as (Hlen & _).
  destruct (lt_eq_lt_dec (inc s + 1) 100) as [[Hlt|Heq]|Hgt].
  - rewrite iteration_warmup by done. by apply run_inv_warmup.
  - rewrite iteration_transition by done.
    pose proof (run_inv_start fb t0 c s Hinv Heq) as Hinv'.
    destruct (invoke_fields Start DoubleSpinningWheel.start
                (store (metric c) (tick (acq c) s)))
      as (_ & Hi & _).
    destruct (invoke Start _ _) as [s' [[]|e]]; [|done].
    apply run_inv_update; [done|].
    cbn [fst] in Hi. rewrite Hi, store_inc. cbn [tick inc]. lia.
  - rewrite iteration_active by done.
    apply run_inv_update.
    + eapply (run_inv_more fb t0 s _ [_]); try done.
      * lia.
      * rewrite store_metrics. by rewrite length_insert.
      * rewrite store_inc. cbn [tick inc]. lia.
      * repeat constructor. simpl. lia.
    + rewrite store_inc. cbn [tick inc]. lia.
Qed.

(** Whatever the script and however the run ends, its last state has a
    log of that shape. *)
Lemma run_inv_loop fb t0 duration script s :
  run_inv fb t0 s → run_inv fb t0 (final (loop duration script s)).
Proof.
  revert s. induction script as [|c script IH]; intros s Hinv; [done|].
  cbn [loop]. destruct (Qle_bool _ _); [|by apply run_inv_tick].
  pose proof (run_inv_iteration fb t0 c (tick (wait c) s)
                (run_inv_tick fb t0 _ s Hinv)) as Hinv'.
  destruct (iteration c (tick (wait c) s)) as [s' [[]|e]]; [|done].
  by apply IH.
Qed.

(** * The handle *)

Lemma init_fresh imp chk png size offset kwargs self :
  DoubleSpinningWheel.__init__ imp chk png size offset kwargs = Ok self →
  fresh self.
Proof.
  unfold DoubleSpinningWheel.__init__, res_bind. intros H.
  repeat match type of H with
         | match ?x with _ => _ end = _ => destruct x; try discriminate
         end.
  all: by injection H as <-.
Qed.

Lemma default_wheel_init :
  DoubleSpinningWheel.__init__ (λ _, Ok tt) (λ _ _ _, Ok tt) true
    (Num (PyFloat (Fin 0.4))) (Num (PyFloat (Fin 0.5))) ∅
  = Ok default_wheel.
Proof. reflexivity. Qed.

(** The call on line 45 of the loop's file, with the tuple [(800, 800)]
    for [size], cannot succeed: whatever [_check_type] says of a tuple,
    comparing it with [-1] raises. *)
Remark init_with_tuple_size_fails imp chk png vs offset kwargs :
  is_ok (DoubleSpinningWheel.__init__ imp chk png (PyTuple vs) offset kwargs)
    = false.
Proof.
  unfold DoubleSpinningWheel.__init__, res_bind.
  repeat match goal with
         | |- is_ok (match ?x with _ => _ end) = _ => destruct x; try done
         end.
Qed.

Lemma start_ok (self : DoubleSpinningWheel.t) :
  DoubleSpinningWheel._status self ≠ 1%Z →
  spawned (DoubleSpinningWheel._process self) = false →
  ∃ self', DoubleSpinningWheel.start self = (self', Ok tt) ∧
           DoubleSpinningWheel._status self' = 1%Z ∧
           spawned (DoubleSpinningWheel._process self') = true ∧
           DoubleSpinningWheel._speed self' = DoubleSpinningWheel._speed self.
Proof.
  intros Hst Hsp. unfold DoubleSpinningWheel.start.
  destruct (Z.eqb_spec (DoubleSpinningWheel._status self) 1); [done|].
  unfold Process_start. cbn [DoubleSpinningWheel.with_status
    DoubleSpinningWheel._process]. rewrite Hsp. by eexists.
Qed.

(** C4.  [start()] raises its usage error iff the status cell reads 1, so
    a second [start()] in succession fails; [stop()] raises its usage
    error iff the status cell reads 0, so [stop()] on a handle never
    started fails; and after a successful [start()] then a successful
    [stop()], [active] is false. *)
Theorem lifecycle_guards (self : DoubleSpinningWheel.t) :
  ((∃ msg, (DoubleSpinningWheel.start self).2 = Raise (RuntimeError msg))
     ↔ DoubleSpinningWheel._status self = 1%Z) ∧
  ((∃ msg, (DoubleSpinningWheel.stop self).2 = Raise (RuntimeError msg))
     ↔ DoubleSpinningWheel._status self = 0%Z) ∧
  (∀ self1,
     DoubleSpinningWheel.start self = (self1, Ok tt) →
     (DoubleSpinningWheel.start self1).2
       = Raise (RuntimeError "The feedback is already started.")) ∧
  (fresh self →
     (DoubleSpinningWheel.stop self).2
       = Raise (RuntimeError "The feedback is already stopped.")) ∧
  (∀ self1 self2,
     DoubleSpinningWheel.start self = (self1, Ok tt) →
     DoubleSpinningWheel.stop self1 = (self2, Ok tt) →
     DoubleSpinningWheel.active self2 = false).
Proof.
  split_and!.
  - unfold DoubleSpinningWheel.start.
    destruct (Z.eqb_spec (DoubleSpinningWheel._status self) 1) as [E|E].
    + split; [done|]. intros _. by eexists.
    + split; [|done]. intros [msg H]. unfold Process_start in H.
      cbv zeta in H. by destruct (spawned _).
  - unfold DoubleSpinningWheel.stop.
    destruct (Z.eqb_spec (DoubleSpinningWheel._status self) 0) as [E|E].
    + split; [done|]. intros _. by eexists.
    + split; [|done]. intros [msg H]. unfold Process_join in H.
      cbv zeta in H. by destruct (spawned _).
  - unfold DoubleSpinningWheel.start at 1. intros self1 H.
    destruct (DoubleSpinningWheel._status self =? 1)%Z; [done|].
    destruct (Process_start _); [|done]. by injection H as <-.
  - intros (Hst & _). unfold DoubleSpinningWheel.stop. by rewrite Hst.
  - intros self1 self2 _. unfold DoubleSpinningWheel.stop. intros H.
    destruct (DoubleSpinningWheel._status self1 =? 0)%Z; [done|].
    destruct (Process_join _); [|done]. by injection H as <-.
Qed.

Lemma lifecycle_guards_witness :
  DoubleSpinningWheel.start default_wheel
    = ((DoubleSpinningWheel.start default_wheel).1, Ok tt) ∧
  DoubleSpinningWheel.stop (DoubleSpinningWheel.start default_wheel).1
    = ((DoubleSpinningWheel.stop
          (DoubleSpinningWheel.start default_wheel).1).1, Ok tt) ∧
  (DoubleSpinningWheel.start (DoubleSpinningWheel.start default_wheel).1).2
    = Raise (RuntimeError "The feedback is already started.") ∧
  (DoubleSpinningWheel.stop default_wheel).2
    = Raise (RuntimeError "The feedback is already stopped.") ∧
  DoubleSpinningWheel.active
    (DoubleSpinningWheel.stop (DoubleSpinningWheel.start default_wheel).1).1
    = false.
Proof.
  destruct (lifecycle_guards default_wheel) as (_ & _ & H2 & Hs & H).
  split_and!.
  - reflexivity.
  - reflexivity.
  - apply H2. reflexivity.
  - apply Hs. repeat split.
  - eapply H; reflexivity.
Defined.

(** The setter of [speed] on Python ints and floats.  It raises its
    assertion failure iff the value is a finite float with a fractional
    part.  An int is written into the speed cell whatever the status: as
    it is when it fits a signed 32-bit int, reduced to 32 bits otherwise.
    No float is ever written: one with an integral value passes the
    assertion and is then refused by the integer cell, [NaN] and the
    infinities are refused by [int()]. *)
Lemma speed_setter_cases (self : DoubleSpinningWheel.t) (v : number) :
  ((∃ msg, (DoubleSpinningWheel.speed_setter self v).2
             = Raise (AssertionError msg))
     ↔ ∃ q, v = PyFloat (Fin q) ∧ ¬ (q == inject_Z (Qtrunc q))%Q) ∧
  (∀ z, v = PyInt z →
        DoubleSpinningWheel.speed_setter self v
          = (DoubleSpinningWheel.with_speed self (c_int z), Ok tt) ∧
        ((- 2 ^ 31 ≤ z < 2 ^ 31)%Z → c_int z = z)) ∧
  (∀ x, v = PyFloat x →
        (DoubleSpinningWheel.speed_setter self v).1 = self ∧
        is_ok (DoubleSpinningWheel.speed_setter self v).2 = false ∧
        (∀ q, x = Fin q → (q == inject_Z (Qtrunc q))%Q →
              ∃ msg, (DoubleSpinningWheel.speed_setter self v).2
                       = Raise (TypeError msg))).
Proof.
  split_and!.
  - destruct v as [z|[| | |q]].
    + rewrite speed_setter_int. split; [by intros [? ?]|].
      by intros (q & ? & _).
    + split; [by intros [? ?]|]. by intros (q & ? & _).
    + split; [by intros [? ?]|]. by intros (q & ? & _).
    + split; [by intros [? ?]|]. by intros (q & ? & _).
    + unfold DoubleSpinningWheel.speed_setter. simpl.
      destruct (Qeq_bool q (inject_Z (Qtrunc q))) eqn:E; simpl.
      * apply Qeq_bool_iff in E. split; [by intros [? ?]|].
        intros (q' & [= <-] & Hne). done.
      * apply Qeq_bool_neq in E. split; [|by eexists].
        intros _. by exists q.
  - intros z ->. split; [apply speed_setter_int|apply c_int_small].
  - intros x ->. unfold DoubleSpinningWheel.speed_setter.
    destruct x as [| | |q]; simpl; try by split_and!.
    destruct (Qeq_bool q (inject_Z (Qtrunc q))) eqn:E; simpl.
    + split_and!; [done..|]. intros ? _ _. by eexists.
    + split_and!; [done..|]. intros q' [= <-] Hq.
      apply Qeq_bool_neq in E. done.
Qed.

Lemma speed_setter_cases_witness :
  (- 2 ^ 31 ≤ 42 < 2 ^ 31)%Z ∧
  DoubleSpinningWheel.speed_setter default_wheel (PyInt 42)
    = (DoubleSpinningWheel.with_speed default_wheel 42, Ok tt).
Proof.
  split; [lia|].
  destruct (speed_setter_cases default_wheel (PyInt 42)) as (_ & H & _).
  destruct (H 42%Z eq_refl) as [-> _]. reflexivity.
Defined.

(** C9.  The setter of [speed] on [5.0], a float that is representable
    as an integer: [int(5.0)] is 5 and the assertion [speed == int(speed)]
    passes, so no usage error is raised; the write into the integer cell
    then raises a type error and the speed cell keeps its value, whether
    or not the wheel is running.  The int [5] is written. *)
Theorem integral_float_not_written (self : DoubleSpinningWheel.t) :
  py_int (PyFloat (Fin 5)) = Ok 5%Z ∧
  py_eq_int (PyFloat (Fin 5)) 5 = true ∧
  DoubleSpinningWheel.speed_setter self (PyFloat (Fin 5))
    = (self,
       Raise (TypeError "'float' object cannot be interpreted as an integer")) ∧
  DoubleSpinningWheel.speed_setter self (PyInt 5)
    = (DoubleSpinningWheel.with_speed self 5, Ok tt).
Proof. by split_and!. Qed.

(** C10.  On every handle [__init__] returns, reading the [image]
    property raises an attribute error: the getter reads [_iamge], and
    the attribute [__init__] stored the path in is [_image]. *)
Theorem image_getter_raises imp chk png size offset kwargs self :
  DoubleSpinningWheel.__init__ imp chk png size offset kwargs = Ok self →
  DoubleSpinningWheel.image self = Raise (AttributeError "_iamge") ∧
  DoubleSpinningWheel.getattr self "_image"
    = Ok (DoubleSpinningWheel.APath
            "demo_realtime/feedbacks/resources/wheel.png").
Proof.
  intros Hinit. split.
  - unfold DoubleSpinningWheel.image, DoubleSpinningWheel.getattr,
      DoubleSpinningWheel.instance_dict.
    rewrite !lookup_insert_ne by done. rewrite lookup_empty.
    by case_decide.
  - assert (DoubleSpinningWheel._image self
            = "demo_realtime/feedbacks/resources/wheel.png") as Himg.
    { revert Hinit. unfold DoubleSpinningWheel.__init__, res_bind.
      intros H.
      repeat match type of H with
             | match ?x with _ => _ end = _ => destruct x; try discriminate
             end.
      all: by injection H as <-. }
    unfold DoubleSpinningWheel.getattr, DoubleSpinningWheel.instance_dict.
    rewrite lookup_insert_ne by done. rewrite lookup_insert_eq.
    by rewrite Himg.
Qed.

Lemma image_getter_raises_witness :
  DoubleSpinningWheel.__init__ (λ _, Ok tt) (λ _ _ _, Ok tt) true
    (Num (PyFloat (Fin 0.4))) (Num (PyFloat (Fin 0.5))) ∅
    = Ok default_wheel ∧
  DoubleSpinningWheel.image default_wheel = Raise (AttributeError "_iamge").
Proof.
  split; [reflexivity|].
  exact (proj1 (image_getter_raises _ _ _ _ _ _ _ default_wheel_init)).
Defined.

(** * The session: warm-up, transition, teardown *)

Lemma append_not_start e : is_append e = true → is_start e = false.
Proof. unfold is_append, is_start. by destruct (what e). Qed.

Lemma warmup_entries t0 s w :
  warmup_log t0 s w →
  Forall (λ e, is_append e = true ∧ at_inc e < 100) w.
Proof.
  intros (Happ & Hnum & _). rewrite Forall_forall in Happ.
  apply Forall_forall. intros e He. split; [by apply Happ|].
  assert (at_inc e ∈ seq 1 (Nat.min (inc s) 99)) as Hin
    by (rewrite <- Hnum; by apply list_elem_of_fmap_2).
  apply elem_of_seq in Hin. lia.
Qed.

(** The statement after the loop adds at most the call of [stop()] to
    the log, and only when the loop was left through its condition. *)
Lemma nfb_log fb duration t0 script :
  let s0 := final (loop duration script (init fb t0)) in
  let s := final (nfb_double_spinning_wheel fb duration t0 script) in
  inc s = inc s0 ∧ start s = start s0 ∧ now s = now s0 ∧
  ∃ tail,
    log s = log s0 ++ tail ∧
    (tail = [] ∨
     tail = [{| at_time := now s0; at_inc := inc s0; what := Stop |}]).
Proof.
  unfold nfb_double_spinning_wheel.
  destruct (loop duration script (init fb t0)) as [s0|s0|e s0];
    cbn [final].
  - split_and!; [done..|]. exists []. by rewrite app_nil_r; auto.
  - destruct (invoke_fields Stop DoubleSpinningWheel.stop s0)
      as (_ & Hi & Hs & Hn & Hl).
    destruct (invoke Stop DoubleSpinningWheel.stop s0) as [s [[]|e]];
      cbn [final fst] in *; (split_and!; [done..|]); eauto.
  - split_and!; [done..|]. exists []. by rewrite app_nil_r; auto.
Qed.

(** C1, as the code has it.  In every run [start()] is called at most
    once.  A run that ends with fewer than 100 metrics stored never calls
    it.  A run that stores the 100th metric calls it then, right after
    that append and before any other call on the handle: only appends
    precede the call, and nothing that follows is a call of [start()]. *)
Theorem start_at_100th_append fb duration t0 script :
  let s := final (nfb_double_spinning_wheel fb duration t0 script) in
  (inc s < 100 → Forall (λ e, is_start e = false) (log s)) ∧
  (100 ≤ inc s →
     ∃ l1 l2 m t,
       log s = l1 ++ {| at_time := t; at_inc := 100; what := Append m |}
                  :: {| at_time := t; at_inc := 100; what := Start |} :: l2 ∧
       Forall (λ e, is_append e = true ∧ at_inc e < 100) l1 ∧
       Forall (λ e, is_start e = false ∧ 100 ≤ at_inc e) l2).
Proof.
  intros s.
  destruct (nfb_log fb duration t0 script)
    as (Hi & _ & _ & tail & Hl & Htail).
  fold s in Hi, Hl.
  destruct (run_inv_loop fb t0 duration script _ (run_inv_init fb t0))
    as (_ & _ & w & rest & Hlog & Hw & Hact).
  pose proof (warmup_entries _ _ _ Hw) as Hwe.
  rewrite Hlog in Hl. unfold active_log in Hact. rewrite <- Hi in Hact.
  split; intros Hinc; (case_decide; [|try lia]); try lia.
  - subst rest. rewrite Hl, app_nil_r. apply Forall_app. split.
    + eapply Forall_impl; [exact Hwe|]. intros e [He _].
      by apply append_not_start.
    + by destruct Htail as [->| ->]; repeat constructor.
  - destruct Hact as (m & t & rest' & -> & Hrest').
    exists w, (rest' ++ tail), m, t. split_and!.
    + by rewrite Hl, <- (assoc_L (++)).
    + done.
    + apply Forall_app. split; [done|].
      destruct Htail as [->| ->]; repeat constructor. simpl. lia.
Qed.

Lemma start_at_100th_append_witness :
  100 ≤ inc (final (nfb_double_spinning_wheel default_wheel 30 0
                      (ramp_cycles 101))) ∧
  ∃ l1 l2 m t,
    log (final (nfb_double_spinning_wheel default_wheel 30 0
                  (ramp_cycles 101)))
      = l1 ++ {| at_time := t; at_inc := 100; what := Append m |}
           :: {| at_time := t; at_inc := 100; what := Start |} :: l2 ∧
    Forall (λ e, is_append e = true ∧ at_inc e < 100) l1 ∧
    Forall (λ e, is_start e = false ∧ 100 ≤ at_inc e) l2.
Proof.
  assert (100 ≤ inc (final (nfb_double_spinning_wheel default_wheel 30 0
                              (ramp_cycles 101)))) as H
    by (vm_compute; lia).
  split; [exact H|].
  exact (proj2 (start_at_100th_append default_wheel 30 0 (ramp_cycles 101)) H).
Defined.

(** A run need not call [start()] at all: held up for longer than the
    session lasts before the loop condition is first evaluated, the code
    leaves the loop at once, and ends (on the error of [stop()]) with no
    call of [start()] in its log. *)
Lemma stalled_run_never_starts :
  terminated (nfb_double_spinning_wheel default_wheel 30 0 stalled) = true ∧
  length (filter (λ e, is_start e = true)
            (log (final (nfb_double_spinning_wheel default_wheel 30 0
                           stalled)))) = 0 ∧
  log (final (nfb_double_spinning_wheel default_wheel 30 0 stalled))
    = [{| at_time := 31; at_inc := 0; what := Stop |}].
Proof. by vm_compute. Qed.

(** C5.  When the loop is left through its condition, [stop()] is called
    next, whatever the state.  If fewer than 100 metrics are stored at
    that point, [start()] was never called, the status cell still reads
    0 and this [stop()] raises its usage error. *)
Theorem teardown_stop_unguarded fb duration t0 script s :
  loop duration script (init fb t0) = Done s →
  log (final (nfb_double_spinning_wheel fb duration t0 script))
    = log s ++ [{| at_time := now s; at_inc := inc s; what := Stop |}] ∧
  (inc s < 100 → DoubleSpinningWheel._status fb = 0%Z →
     Forall (λ e, is_start e = false) (log s) ∧
     DoubleSpinningWheel._status (feedback s) = 0%Z ∧
     ∃ s', nfb_double_spinning_wheel fb duration t0 script
             = Raised (RuntimeError "The feedback is already stopped.") s').
Proof.
  intros Hloop.
  pose proof (run_inv_loop fb t0 duration script _ (run_inv_init fb t0))
    as (_ & Hfb & w & rest & Hlog & Hw & Hact).
  rewrite Hloop in Hfb, Hlog, Hw, Hact. cbn [final] in *.
  unfold nfb_double_spinning_wheel. rewrite Hloop. split.
  - destruct (invoke_fields Stop DoubleSpinningWheel.stop s)
      as (_ & _ & _ & _ & Hl).
    by destruct (invoke Stop DoubleSpinningWheel.stop s) as [s' [[]|e]].
  - intros Hinc Hst. rewrite <- (Hfb Hinc) in Hst. split_and!; [|done|].
    + unfold active_log in Hact. case_decide; [subst rest|lia].
      rewrite Hlog, app_nil_r.
      eapply Forall_impl; [exact (warmup_entries _ _ _ Hw)|].
      intros e [He _]. by apply append_not_start.
    + unfold invoke, DoubleSpinningWheel.stop. rewrite Hst. by eexists.
Qed.

Lemma teardown_stop_unguarded_witness :
  loop 30 stalled (init default_wheel 0)
    = Done (tick 31 (init default_wheel 0)) ∧
  inc (tick 31 (init default_wheel 0)) < 100 ∧
  DoubleSpinningWheel._status default_wheel = 0%Z ∧
  ∃ s', nfb_double_spinning_wheel default_wheel 30 0 stalled
          = Raised (RuntimeError "The feedback is already stopped.") s'.
Proof.
  assert (loop 30 stalled (init default_wheel 0)
          = Done (tick 31 (init default_wheel 0))) as Hloop by reflexivity.
  assert (inc (tick 31 (init default_wheel 0)) < 100) as Hinc
    by (simpl; lia).
  split_and!; [exact Hloop|exact Hinc|reflexivity|].
  destruct (teardown_stop_unguarded default_wheel 30 0 stalled _ Hloop)
    as [_ H].
  destruct (H Hinc eq_refl) as (_ & _ & Hraise). exact Hraise.
Defined.

(** * The session clock *)

Lemma iteration_start_kept c s :
  length (metrics s) = 100 → 100 ≤ inc s + 1 →
  start (iteration c s).1 = start s.
Proof.
  intros Hlen Hinc.
  destruct (decide (inc s + 1 = 100)) as [Heq|Hne].
  - rewrite iteration_transition by done.
    destruct (invoke_fields Start DoubleSpinningWheel.start
                (store (metric c) (tick (acq c) s)))
      as (_ & _ & Hs & _).
    destruct (invoke Start _ _) as [s' [[]|e]]; cbn [fst] in *; [|done].
    destruct (update_feedback_fields (metric c) s') as (_ & _ & Hs' & _).
    by rewrite Hs', Hs.
  - rewrite iteration_active by (done || lia).
    destruct (update_feedback_fields (metric c)
                (store (metric c) (tick (acq c) s))) as (_ & _ & Hs' & _).
    by rewrite Hs'.
Qed.

(** C8, as the code has it.  The clock origin [start] is read again at
    the end of every pass that leaves fewer than 100 metrics stored, and
    never in a pass that stores the 100th metric or a later one.  So in
    every run the origin is the time at which the last metric of the
    warm-up was appended, the 99th once the buffer is full (the reading
    taken before the loop if nothing was appended yet): the elapsed time
    held against the duration runs from there, and includes the
    acquisition that fills the buffer. *)
Theorem clock_origin_is_last_warmup_append fb duration t0 script :
  (∀ c s, length (metrics s) = 100 → inc s + 1 < 100 →
          start (iteration c s).1 = now (iteration c s).1) ∧
  (∀ c s, length (metrics s) = 100 → 100 ≤ inc s + 1 →
          start (iteration c s).1 = start s) ∧
  let s := final (loop duration script (init fb t0)) in
  ∃ w rest,
    log s = w ++ rest ∧
    Forall (λ e, is_append e = true) w ∧
    at_inc <$> w = seq 1 (Nat.min (inc s) 99) ∧
    Forall (λ e, 100 ≤ at_inc e) rest ∧
    start s = default t0 (at_time <$> last w).
Proof.
  split_and!.
  - intros c s Hlen Hinc. by rewrite iteration_warmup.
  - apply iteration_start_kept.
  - intros s.
    destruct (run_inv_loop fb t0 duration script _ (run_inv_init fb t0))
      as (_ & _ & w & rest & Hlog & (Hw1 & Hw2 & Hw3) & Hact).
    exists w, rest. split_and!; try done.
    unfold active_log in Hact. fold s in Hact. case_decide.
    + by subst rest.
    + destruct Hact as (m & t & rest' & -> & Hrest').
      repeat constructor.
      eapply Forall_impl; [exact Hrest'|]. by intros e [_ ?].
Qed.

Lemma clock_origin_is_last_warmup_append_witness :
  start (final (loop 30 slow_fill (init default_wheel 0))) = 99%Q ∧
  ∃ w rest,
    log (final (loop 30 slow_fill (init default_wheel 0))) = w ++ rest ∧
    Forall (λ e, is_append e = true) w ∧
    at_inc <$> w
      = seq 1 (Nat.min (inc (final (loop 30 slow_fill
                                      (init default_wheel 0)))) 99) ∧
    Forall (λ e, 100 ≤ at_inc e) rest ∧
    start (final (loop 30 slow_fill (init default_wheel 0)))
      = default 0%Q (at_time <$> last w).
Proof.
  split; [by vm_compute|].
  exact (proj2 (proj2
    (clock_origin_is_last_warmup_append default_wheel 30 0 slow_fill))).
Defined.

(** The budget does not start when the buffer becomes full.  Here the
    buffer becomes full (and [start()] is called) at time 130, after an
    acquisition of 31 seconds; the loop condition, evaluated at once,
    holds those 31 seconds against the 30 of the session, and the code
    leaves the loop and calls [stop()] at time 130 too: no time at all
    after the buffer became full. *)
Lemma budget_runs_before_buffer_is_full :
  terminated (nfb_double_spinning_wheel default_wheel 30 0 slow_fill) = true ∧
  filter (λ e, is_append e = false)
    (log (final (nfb_double_spinning_wheel default_wheel 30 0 slow_fill)))
    = [{| at_time := 130; at_inc := 100; what := Start |};
       {| at_time := 130; at_inc := 100; what := SetSpeed 100 |};
       {| at_time := 130; at_inc := 100; what := Stop |}] ∧
  start (final (nfb_double_spinning_wheel default_wheel 30 0 slow_fill))
    = 99%Q ∧
  (130 - 130 <= 30)%Q.
Proof. by vm_compute. Qed.

(** * The properties at concrete inputs *)

Lemma ring_buffer_witness :
  100 ≤ length (climb 103) ∧
  metrics (fill (climb 103) (init default_wheel 0)) ≡ₚ drop 3 (climb 103).
Proof.
  assert (100 ≤ length (climb 103)) as Hlen by (vm_compute; lia).
  split; [exact Hlen|].
  destruct (ring_buffer default_wheel 0 (climb 103)) as (_ & _ & _ & H).
  destruct (H Hlen) as (_ & _ & Hperm). exact Hperm.
Defined.



Lemma zero_width_range_unguarded_witness :
  percentile (metrics flat_state) 5 = Fin flat_low ∧
  percentile (metrics flat_state) 95 = Fin flat_high ∧
  (flat_high == flat_low)%Q ∧
  update_feedback (Fin 5) flat_state
    = (flat_state, Raise (ValueError "cannot convert float NaN to integer")).
Proof.
  assert (percentile (metrics flat_state) 5 = Fin flat_low) as Hlow
    by (vm_compute; reflexivity).
  assert (percentile (metrics flat_state) 95 = Fin flat_high) as Hhigh
    by (vm_compute; reflexivity).
  assert (flat_high == flat_low)%Q as Heq by (vm_compute; reflexivity).
  split_and!; [exact Hlow|exact Hhigh|exact Heq|].
  exact (proj2 (proj2
    (zero_width_range_unguarded flat_state 5 _ _ Hlow Hhigh Heq))).
Defined.

(** A session fed 100 times the same metric ends in the pass that fills
    the buffer: [start()] is called, then [int(nan)] raises. *)
Example flat_session_raises :
  ∃ s, nfb_double_spinning_wheel default_wheel 30 0
         (replicate 100 {| wait := 0; acq := 1; metric := Fin 5 |})
       = Raised (ValueError "cannot convert float NaN to integer") s ∧
       filter (λ e, is_append e = false) (log s)
       = [{| at_time := 100; at_inc := 100; what := Start |}].
Proof. eexists. split; [vm_compute; reflexivity|by vm_compute]. Qed.

(** * More on the handle *)

(** What a successful [__init__] went through and what it built. *)
Lemma init_inv imp chk png size offset kwargs self :
  DoubleSpinningWheel.__init__ imp chk png size offset kwargs = Ok self →
  ∃ kw,
    (kwargs !! "units" = None ∧ kw = <["units" := PyStr "norm"]> kwargs ∨
     kwargs !! "units" = Some (PyStr "norm") ∧ kw = kwargs) ∧
    DoubleSpinningWheel.range_check size = Ok tt ∧
    DoubleSpinningWheel.range_check offset = Ok tt ∧
    self =
      {| DoubleSpinningWheel._winkwargs :=
           DoubleSpinningWheel.setdefault "color"
             (PyTuple [Num (PyInt (-1)); Num (PyInt (-1)); Num (PyInt (-1))])
             (DoubleSpinningWheel.setdefault "winType" (PyStr "pyglet") kw);
         DoubleSpinningWheel._image :=
           "demo_realtime/feedbacks/resources/wheel.png";
         DoubleSpinningWheel._size := size;
         DoubleSpinningWheel._offset := offset;
         DoubleSpinningWheel._speed := 0;
         DoubleSpinningWheel._status := 0;
         DoubleSpinningWheel._process := {| spawned := false |} |}.
Proof.
  unfold DoubleSpinningWheel.__init__, res_bind. intros H.
  destruct (imp _); [|done].
  destruct (kwargs !! "units") as [u|] eqn:Hu.
  - destruct (DoubleSpinningWheel.is_str u "norm") eqn:Hs; [|done].
    assert (u = PyStr "norm") as ->.
    { destruct u as [| s |]; try done. simpl in Hs.
      by apply String.eqb_eq in Hs as ->. }
    destruct png; [|done].
    destruct (chk size _ _); [|done]. destruct (chk offset _ _); [|done].
    destruct (DoubleSpinningWheel.range_check size) as [[]|]; [|done].
    destruct (DoubleSpinningWheel.range_check offset) as [[]|]; [|done].
    injection H as <-. exists kwargs. split_and!; auto.
  - destruct png; [|done].
    destruct (chk size _ _); [|done]. destruct (chk offset _ _); [|done].
    destruct (DoubleSpinningWheel.range_check size) as [[]|]; [|done].
    destruct (DoubleSpinningWheel.range_check offset) as [[]|]; [|done].
    injection H as <-. eexists. split_and!; auto.
Qed.

Lemma setdefault_lookup key d (kw : gmap string pyval) k :
  DoubleSpinningWheel.setdefault key d kw !! k
    = if decide (key = k) then Some (default d (kw !! key)) else kw !! k.
Proof.
  unfold DoubleSpinningWheel.setdefault.
  destruct (kw !! key) eqn:E; case_decide; subst; try done.
  - by rewrite lookup_insert_eq.
  - by rewrite lookup_insert_ne.
Qed.

(** X1.  [__init__] accepts no coordinate unit but ["norm"]: given any
    other value for [units] it returns no handle, and raises its
    [ValueError] as soon as psychopy is importable; and the window
    options of every handle it returns have [units] set to ["norm"]. *)
Theorem init_units imp chk png size offset kwargs :
  (∀ u, kwargs !! "units" = Some u → u ≠ PyStr "norm" →
     is_ok (DoubleSpinningWheel.__init__ imp chk png size offset kwargs)
       = false ∧
     (imp "psychopy" = Ok tt →
      DoubleSpinningWheel.__init__ imp chk png size offset kwargs
        = Raise (ValueError "The unit used should be 'norm'."))) ∧
  (∀ self,
     DoubleSpinningWheel.__init__ imp chk png size offset kwargs = Ok self →
     DoubleSpinningWheel._winkwargs self !! "units" = Some (PyStr "norm")).
Proof.
  split.
  - intros u Hu Hne.
    assert (DoubleSpinningWheel.is_str u "norm" = false) as Hs.
    { destruct u as [| s |]; try done. simpl.
      destruct (String.eqb_spec s "norm"); [by subst|done]. }
    unfold DoubleSpinningWheel.__init__, res_bind. rewrite Hu, Hs.
    split; [by destruct (imp _)|]. by intros ->.
  - intros self Hinit.
    destruct (init_inv _ _ _ _ _ _ _ Hinit) as (kw & Hkw & _ & _ & ->).
    cbn [DoubleSpinningWheel._winkwargs].
    rewrite !setdefault_lookup. repeat (case_decide; [done|]).
    destruct Hkw as [[_ ->]|[? ->]]; [by rewrite lookup_insert_eq|done].
Qed.

Lemma init_units_witness :
  (<["units" := PyStr "pix"]> ∅ : gmap string pyval) !! "units"
    = Some (PyStr "pix") ∧
  PyStr "pix" ≠ PyStr "norm" ∧
  DoubleSpinningWheel.__init__ (λ _, Ok tt) (λ _ _ _, Ok tt) true
    (Num (PyFloat (Fin 0.4))) (Num (PyFloat (Fin 0.5)))
    (<["units" := PyStr "pix"]> ∅)
    = Raise (ValueError "The unit used should be 'norm'.") ∧
  DoubleSpinningWheel._winkwargs default_wheel !! "units"
    = Some (PyStr "norm").
Proof.
  assert ((<["units" := PyStr "pix"]> ∅ : gmap string pyval) !! "units"
          = Some (PyStr "pix")) as Hu by reflexivity.
  assert (PyStr "pix" ≠ PyStr "norm") as Hne by discriminate.
  refine (conj Hu (conj Hne (conj _ _))).
  - exact (proj2 (proj1 (init_units (λ _, Ok tt) (λ _ _ _, Ok tt) true
             (Num (PyFloat (Fin 0.4))) (Num (PyFloat (Fin 0.5)))
             (<["units" := PyStr "pix"]> ∅)) _ Hu Hne) eq_refl).
  - exact (proj2 (init_units (λ _, Ok tt) (λ _ _ _, Ok tt) true
             (Num (PyFloat (Fin 0.4))) (Num (PyFloat (Fin 0.5))) ∅)
             default_wheel default_wheel_init).
Defined.

(** X2.  Of the window options passed to [__init__], [winType] and
    [color] are kept when given and set to ["pyglet"] and [(-1, -1, -1)]
    when not, and every other option except [units] reaches the handle
    unchanged. *)
Theorem init_window_options imp chk png size offset kwargs self :
  DoubleSpinningWheel.__init__ imp chk png size offset kwargs = Ok self →
  DoubleSpinningWheel._winkwargs self !! "winType"
    = Some (default (PyStr "pyglet") (kwargs !! "winType")) ∧
  DoubleSpinningWheel._winkwargs self !! "color"
    = Some (default
              (PyTuple [Num (PyInt (-1)); Num (PyInt (-1)); Num (PyInt (-1))])
              (kwargs !! "color")) ∧
  (∀ key, key ≠ "units" → key ≠ "winType" → key ≠ "color" →
          DoubleSpinningWheel._winkwargs self !! key = kwargs !! key).
Proof.
  intros Hinit.
  destruct (init_inv _ _ _ _ _ _ _ Hinit) as (kw & Hkw & _ & _ & ->).
  cbn [DoubleSpinningWheel._winkwargs].
  assert (∀ key, key ≠ "units" → kw !! key = kwargs !! key) as Hsame.
  { intros key Hkey.
    destruct Hkw as [[_ ->]|[_ ->]]; [by rewrite lookup_insert_ne|done]. }
  split_and!.
  - rewrite !setdefault_lookup. case_decide; [done|].
    case_decide; [|done]. by rewrite Hsame.
  - rewrite !setdefault_lookup. case_decide; [|done].
    case_decide; [done|]. by rewrite Hsame.
  - intros key H1 H2 H3. rewrite !setdefault_lookup.
    repeat (case_decide; [done|]). by apply Hsame.
Qed.

Lemma init_window_options_witness :
  DoubleSpinningWheel.__init__ (λ _, Ok tt) (λ _ _ _, Ok tt) true
    (Num (PyFloat (Fin 0.4))) (Num (PyFloat (Fin 0.5))) ∅
    = Ok default_wheel ∧
  DoubleSpinningWheel._winkwargs default_wheel !! "winType"
    = Some (PyStr "pyglet").
Proof.
  split; [reflexivity|].
  exact (proj1 (init_window_options _ _ _ _ _ _ _ default_wheel_init)).
Defined.

(** X3.  A handle [__init__] returns is stopped, with speed 0 and no
    process spawned; its [size] and [offset] properties give back the
    arguments of [__init__], and these are numbers: a string or a tuple
    for either makes [__init__] raise. *)
Theorem init_state imp chk png size offset kwargs self :
  DoubleSpinningWheel.__init__ imp chk png size offset kwargs = Ok self →
  DoubleSpinningWheel.active self = false ∧
  DoubleSpinningWheel.speed self = 0%Z ∧
  spawned (DoubleSpinningWheel._process self) = false ∧
  DoubleSpinningWheel.size self = Ok (DoubleSpinningWheel.AVal size) ∧
  DoubleSpinningWheel.offset self = Ok (DoubleSpinningWheel.AVal offset) ∧
  (∃ n, size = Num n) ∧ (∃ n, offset = Num n).
Proof.
  intros Hinit.
  destruct (init_inv _ _ _ _ _ _ _ Hinit) as (kw & _ & Hsize & Hoff & ->).
  split_and!; try done.
  - destruct size as [n| |]; [by exists n|done..].
  - destruct offset as [n| |]; [by exists n|done..].
Qed.

Lemma init_state_witness :
  DoubleSpinningWheel.__init__ (λ _, Ok tt) (λ _ _ _, Ok tt) true
    (Num (PyFloat (Fin 0.4))) (Num (PyFloat (Fin 0.5))) ∅
    = Ok default_wheel ∧
  DoubleSpinningWheel.active default_wheel = false ∧
  DoubleSpinningWheel.size default_wheel
    = Ok (DoubleSpinningWheel.AVal (Num (PyFloat (Fin 0.4)))).
Proof.
  split; [reflexivity|].
  pose proof (init_state _ _ _ _ _ _ _ default_wheel_init)
    as (Ha & _ & _ & Hs & _).
  exact (conj Ha Hs).
Defined.

(** X4.  A handle is good for one session.  After a successful
    [start()] and a successful [stop()], a further [start()] passes the
    guard, sets the status cell, and then fails in [Process.start()]:
    the handle reports itself active although no process was started. *)
Theorem restart_fails (self self1 self2 : DoubleSpinningWheel.t) :
  DoubleSpinningWheel.start self = (self1, Ok tt) →
  DoubleSpinningWheel.stop self1 = (self2, Ok tt) →
  ∃ self3,
    DoubleSpinningWheel.start self2
      = (self3, Raise (AssertionError "cannot start a process twice")) ∧
    DoubleSpinningWheel.active self3 = true.
Proof.
  unfold DoubleSpinningWheel.start at 1. intros Hstart.
  destruct (DoubleSpinningWheel._status self =? 1)%Z; [done|].
  unfold Process_start in Hstart. cbv zeta in Hstart.
  destruct (spawned _); [done|]. injection Hstart as <-.
  unfold DoubleSpinningWheel.stop. simpl. intros [= <-].
  eexists. split; reflexivity.
Qed.

Lemma restart_fails_witness :
  ∃ self3,
    DoubleSpinningWheel.start
      (DoubleSpinningWheel.stop (DoubleSpinningWheel.start default_wheel).1).1
      = (self3, Raise (AssertionError "cannot start a process twice")) ∧
    DoubleSpinningWheel.active self3 = true.
Proof.
  exact (restart_fails default_wheel _ _ eq_refl eq_refl).
Defined.

(** X5.  [__del__] stops a handle whose status cell reads 1 (with its
    process spawned this succeeds and leaves the handle inactive, its
    speed untouched) and does nothing at all otherwise: it never raises
    the usage error of [stop()]. *)
Theorem del_stops_if_running (self : DoubleSpinningWheel.t) :
  (DoubleSpinningWheel._status self = 1%Z →
   spawned (DoubleSpinningWheel._process self) = true →
   ∃ self',
     DoubleSpinningWheel.__del__ self = (self', Ok tt) ∧
     DoubleSpinningWheel.active self' = false ∧
     DoubleSpinningWheel.speed self' = DoubleSpinningWheel.speed self) ∧
  (DoubleSpinningWheel._status self ≠ 1%Z →
   DoubleSpinningWheel.__del__ self = (self, Ok tt)) ∧
  (∀ msg, (DoubleSpinningWheel.__del__ self).2 ≠ Raise (RuntimeError msg)).
Proof.
  unfold DoubleSpinningWheel.__del__, DoubleSpinningWheel.stop,
    Process_join.
  split_and!.
  - intros Hst Hsp. rewrite Hst. simpl. rewrite Hsp. by eexists.
  - intros Hst. by destruct (Z.eqb_spec (DoubleSpinningWheel._status self) 1).
  - intros msg.
    destruct (Z.eqb_spec (DoubleSpinningWheel._status self) 1) as [->|];
      [|done].
    simpl. by destruct (spawned _).
Qed.

Lemma del_stops_if_running_witness :
  ∃ self',
    DoubleSpinningWheel.__del__ (DoubleSpinningWheel.start default_wheel).1
      = (self', Ok tt) ∧
    DoubleSpinningWheel.active self' = false ∧
    DoubleSpinningWheel.speed self'
      = DoubleSpinningWheel.speed (DoubleSpinningWheel.start default_wheel).1.
Proof.
  exact (proj1 (del_stops_if_running
                  (DoubleSpinningWheel.start default_wheel).1)
           eq_refl eq_refl).
Defined.

(** X6.  Speed and lifecycle do not interfere: the setter of [speed],
    whether it succeeds or raises, leaves the status cell and the process
    as they are, and [start()] and [stop()], whether they succeed or
    raise, leave the speed cell as it is. *)
Theorem speed_and_lifecycle_independent (self : DoubleSpinningWheel.t) :
  (∀ v, DoubleSpinningWheel._status
          (DoubleSpinningWheel.speed_setter self v).1
          = DoubleSpinningWheel._status self ∧
        DoubleSpinningWheel._process
          (DoubleSpinningWheel.speed_setter self v).1
          = DoubleSpinningWheel._process self) ∧
  DoubleSpinningWheel.speed (DoubleSpinningWheel.start self).1
    = DoubleSpinningWheel.speed self ∧
  DoubleSpinningWheel.speed (DoubleSpinningWheel.stop self).1
    = DoubleSpinningWheel.speed self.
Proof.
  split_and!.
  - intros v. unfold DoubleSpinningWheel.speed_setter.
    destruct (py_int v); [|done].
    destruct (py_eq_int v a); [|done]. by destruct (cell_store v).
  - unfold DoubleSpinningWheel.start.
    destruct (_ =? _)%Z; [done|]. cbv zeta. by destruct (Process_start _).
  - unfold DoubleSpinningWheel.stop.
    destruct (_ =? _)%Z; [done|]. cbv zeta. by destruct (Process_join _).
Qed.

(** * The display process *)




(** X8.  Nothing guards [_normalize_size] against a window whose shorter
    side is 0 pixels: the division is carried out and the component is
    an infinity, or [NaN] for a size of 0. *)
Theorem normalize_size_zero_side (w : Z) (size : Q) :
  (0 < w)%Z →
  DoubleSpinningWheel._normalize_size (w, 0%Z) (Fin size)
    = DoubleSpinningWheel.Array
        [Fin size;
         match (size ?= 0)%Q with Eq => NaN | Lt => NInf | Gt => PInf end] ∧
  DoubleSpinningWheel._normalize_size (0%Z, w) (Fin size)
    = DoubleSpinningWheel.Array
        [match (size ?= 0)%Q with Eq => NaN | Lt => NInf | Gt => PInf end;
         Fin size].
Proof.
  intros Hw. unfold DoubleSpinningWheel._normalize_size.
  assert (0 < inject_Z w)%Q as Hq
    by (change 0%Q with (inject_Z 0); by rewrite <- Zlt_Qlt).
  assert (Qsign (size * inject_Z w) = (size ?= 0)%Q) as Hsign.
  { destruct (size ?= 0)%Q eqn:E.
    - apply Qsign_Eq. apply Qeq_alt in E. rewrite E. lra.
    - apply Qsign_Lt. apply Qlt_alt in E. nra.
    - apply Qsign_Gt. apply Qgt_alt in E. nra. }
  destruct (Z.eqb_spec w 0); [lia|]. destruct (Z.eqb_spec 0 w); [lia|].
  destruct (Z.ltb_spec 0 w); [|lia]. destruct (Z.ltb_spec w 0); [lia|].
  simpl. change (Qsign (inject_Z 0)) with Eq. by rewrite Hsign.
Qed.

Lemma normalize_size_zero_side_witness :
  (0 < 800)%Z ∧
  DoubleSpinningWheel._normalize_size (800%Z, 0%Z) (Fin 0.4)
    = DoubleSpinningWheel.Array [Fin 0.4; PInf].
Proof.
  assert (0 < 800)%Z as H by lia.
  exact (conj H (proj1 (normalize_size_zero_side 800 0.4 H))).
Defined.

Lemma sum_Z_cons z zs : sum_Z (z :: zs) = (z + sum_Z zs)%Z.
Proof. reflexivity. Qed.

(** The display loop from any display whose wheels have finite
    orientations. *)
Lemma display_loop_spec frames (d : DoubleSpinningWheel.display) ql qr :
  DoubleSpinningWheel.ori (DoubleSpinningWheel.lwheel d) = Fin ql →
  DoubleSpinningWheel.ori (DoubleSpinningWheel.rwheel d) = Fin qr →
  let o := DoubleSpinningWheel.display_loop frames d in
  let drawn := drawn_frames frames in
  DoubleSpinningWheel.flips (DoubleSpinningWheel.win (shown o))
    = DoubleSpinningWheel.flips (DoubleSpinningWheel.win d) + length drawn ∧
  DoubleSpinningWheel.closed (DoubleSpinningWheel.win (shown o))
    = DoubleSpinningWheel.closed (DoubleSpinningWheel.win d)
      || has_returned o ∧
  (has_returned o = true ↔
   ∃ f, f ∈ frames ∧ DoubleSpinningWheel.status_value f = 0%Z) ∧
  DoubleSpinningWheel.stim_size (DoubleSpinningWheel.lwheel (shown o))
    = DoubleSpinningWheel.stim_size (DoubleSpinningWheel.lwheel d) ∧
  DoubleSpinningWheel.stim_size (DoubleSpinningWheel.rwheel (shown o))
    = DoubleSpinningWheel.stim_size (DoubleSpinningWheel.rwheel d) ∧
  DoubleSpinningWheel.pos (DoubleSpinningWheel.lwheel (shown o))
    = DoubleSpinningWheel.pos (DoubleSpinningWheel.lwheel d) ∧
  DoubleSpinningWheel.pos (DoubleSpinningWheel.rwheel (shown o))
    = DoubleSpinningWheel.pos (DoubleSpinningWheel.rwheel d) ∧
  ∃ ql' qr',
    DoubleSpinningWheel.ori (DoubleSpinningWheel.lwheel (shown o)) = Fin ql' ∧
    DoubleSpinningWheel.ori (DoubleSpinningWheel.rwheel (shown o)) = Fin qr' ∧
    (ql' == ql + inject_Z
                   (sum_Z (DoubleSpinningWheel.speed_left <$> drawn)))%Q ∧
    (qr' == qr - inject_Z
                   (sum_Z (DoubleSpinningWheel.speed_right <$> drawn)))%Q.
Proof.
  revert d ql qr. induction frames as [|f frames IH]; intros d ql qr Hl Hr.
  - simpl. rewrite orb_false_r, Nat.add_0_r. split_and!; try done.
    + split; [done|]. intros (f & Hf & _). by apply elem_of_nil in Hf.
    + exists ql, qr. change (inject_Z 0) with 0%Q.
      split_and!; try done; lra.
  - cbn [DoubleSpinningWheel.display_loop drawn_frames].
    destruct (Z.eqb_spec (DoubleSpinningWheel.status_value f) 0) as [E|E].
    + simpl. rewrite orb_true_r, Nat.add_0_r. split_and!; try done.
      * split; [|done]. intros _. exists f. split; [|done]. constructor.
      * exists ql, qr. change (inject_Z 0) with 0%Q.
        split_and!; try done; lra.
    + destruct (IH (DoubleSpinningWheel.draw_frame f d)
                  (ql + inject_Z (DoubleSpinningWheel.speed_left f))%Q
                  (qr + - inject_Z (DoubleSpinningWheel.speed_right f))%Q)
        as (Hfl & Hcl & Hret & Hsl & Hsr & Hpl & Hpr & ql' & qr' &
            Hl' & Hr' & Hql & Hqr).
      { simpl. by rewrite Hl. }
      { simpl. by rewrite Hr. }
      split_and!; try done.
      * rewrite Hfl. simpl. lia.
      * rewrite Hret. split.
        -- intros (g & Hg & Hg0). exists g. split; [by constructor|done].
        -- intros (g & Hg & Hg0). apply elem_of_cons in Hg as [->|Hg];
             [done|]. by exists g.
      * exists ql', qr'. split_and!; try done.
        -- rewrite Hql, fmap_cons, sum_Z_cons, inject_Z_plus. lra.
        -- rewrite Hqr, fmap_cons, sum_Z_cons, inject_Z_plus. lra.
Qed.

(** X9.  The display process presents one frame when it opens and one
    per pass until the first pass that reads a status of 0; it returns,
    closing its window, in that pass and only then; reads after it are
    never made.  By then the left wheel has turned by the sum of the
    speeds read for it and the right wheel by minus the sum of the
    speeds read for it.  The two are opposite when each pass read the
    same speed twice; a write of the parent between the two reads of a
    pass breaks the symmetry by the difference. *)
Theorem main_loop_turns winkargs image size offset pixels frames :
  let o := DoubleSpinningWheel._main_loop winkargs image size offset
             pixels frames in
  let drawn := drawn_frames frames in
  DoubleSpinningWheel.flips (DoubleSpinningWheel.win (shown o))
    = S (length drawn) ∧
  DoubleSpinningWheel.closed (DoubleSpinningWheel.win (shown o))
    = has_returned o ∧
  (has_returned o = true ↔
   ∃ f, f ∈ frames ∧ DoubleSpinningWheel.status_value f = 0%Z) ∧
  ∃ ql qr,
    DoubleSpinningWheel.ori (DoubleSpinningWheel.lwheel (shown o)) = Fin ql ∧
    DoubleSpinningWheel.ori (DoubleSpinningWheel.rwheel (shown o)) = Fin qr ∧
    (ql == inject_Z (sum_Z (DoubleSpinningWheel.speed_left <$> drawn)))%Q ∧
    (qr == - inject_Z (sum_Z (DoubleSpinningWheel.speed_right <$> drawn)))%Q ∧
    (ql + qr ==
       inject_Z (sum_Z (DoubleSpinningWheel.speed_left <$> drawn)
                 - sum_Z (DoubleSpinningWheel.speed_right <$> drawn)))%Q ∧
    (Forall (λ f, DoubleSpinningWheel.speed_left f
                  = DoubleSpinningWheel.speed_right f) drawn →
     (ql + qr == 0)%Q).
Proof.
  intros o drawn.
  destruct (display_loop_spec frames
              (DoubleSpinningWheel.open_display pixels size offset) 0 0
              eq_refl eq_refl)
    as (Hfl & Hcl & Hret & _ & _ & _ & _ & ql & qr & Hl & Hr & Hql & Hqr).
  fold o drawn in Hfl, Hcl, Hret, Hl, Hr, Hql, Hqr.
  split_and!; try done.
  exists ql, qr. split_and!; try done.
  - rewrite Hql. lra.
  - rewrite Hqr. lra.
  - rewrite Hql, Hqr. unfold Z.sub. rewrite inject_Z_plus, inject_Z_opp. lra.
  - intros Hsame.
    assert (DoubleSpinningWheel.speed_left <$> drawn
            = DoubleSpinningWheel.speed_right <$> drawn) as Heq
      by by apply Forall_fmap_ext_1.
    rewrite Hql, Hqr, Heq. lra.
Qed.

Lemma main_loop_turns_witness :
  Forall (λ f, DoubleSpinningWheel.speed_left f
               = DoubleSpinningWheel.speed_right f)
    (drawn_frames two_frames) ∧
  ∃ ql qr,
    DoubleSpinningWheel.ori
      (DoubleSpinningWheel.lwheel
         (shown (DoubleSpinningWheel._main_loop ∅ "wheel.png" (Fin 0.4)
                   (Fin 0.5) (800%Z, 600%Z) two_frames))) = Fin ql ∧
    DoubleSpinningWheel.ori
      (DoubleSpinningWheel.rwheel
         (shown (DoubleSpinningWheel._main_loop ∅ "wheel.png" (Fin 0.4)
                   (Fin 0.5) (800%Z, 600%Z) two_frames))) = Fin qr ∧
    (ql + qr == 0)%Q.
Proof.
  assert (Forall (λ f, DoubleSpinningWheel.speed_left f
                       = DoubleSpinningWheel.speed_right f)
            (drawn_frames two_frames)) as Hsame by (repeat constructor).
  split; [exact Hsame|].
  destruct (main_loop_turns ∅ "wheel.png" (Fin 0.4) (Fin 0.5)
              (800%Z, 600%Z) two_frames)
    as (_ & _ & _ & ql & qr & Hl & Hr & _ & _ & _ & Hsym).
  exists ql, qr. exact (conj Hl (conj Hr (Hsym Hsame))).
Defined.



(** * Before the loop *)

Lemma occipital_spec ch : occipital ch = true ↔ ch = "O1" ∨ ch = "O2".
Proof.
  unfold occipital. rewrite orb_true_iff, !String.eqb_eq. done.
Qed.

Lemma enumerate_filter_sorted {A} (P : A → bool) (g : nat → nat) (l : list A) :
  (∀ i j, i < j → g i < g j) →
  let ks := fst <$> List.filter (λ p, P p.2) (imap (λ k x, (g k, x)) l) in
  StronglySorted lt ks ∧ Forall (λ k, ∃ i, k = g i) ks ∧
  length ks = length (List.filter P l).
Proof.
  revert g. induction l as [|a l IH]; intros g Hg.
  - simpl. split_and!; constructor.
  - cbn [imap List.filter snd].
    destruct (IH (g ∘ S)) as (Hs & Hf & Hl).
    { intros i j Hij. apply Hg. lia. }
    destruct (P a); cbn [fmap list_fmap fst length].
    + split_and!.
      * constructor; [done|].
        eapply Forall_impl; [exact Hf|]. intros k [i ->]. apply Hg. lia.
      * constructor; [by exists 0|].
        eapply Forall_impl; [exact Hf|]. intros k [i ->]. by exists (S i).
      * by f_equal.
    + split_and!; [done| |done].
      eapply Forall_impl; [exact Hf|]. intros k [i ->]. by exists (S i).
Qed.

(** X11.  The channels the loop selects are exactly the positions of the
    names ["O1"] and ["O2"] in the receiver's channel list, in increasing
    order and each once; there are as many as there are such names, so
    the assertion [len(ch_idx) == 2] counts names, not distinct
    channels. *)
Theorem ch_idx_spec (ch_names : list string) :
  (∀ k, k ∈ ch_idx ch_names ↔
        ∃ ch, ch_names !! k = Some ch ∧ (ch = "O1" ∨ ch = "O2")%string) ∧
  StronglySorted lt (ch_idx ch_names) ∧
  length (ch_idx ch_names) = length (List.filter occipital ch_names).
Proof.
  split_and!.
  - intros k. unfold ch_idx, enumerate. rewrite list_elem_of_fmap. split.
    + intros ([k' ch] & -> & Hin).
      apply list_elem_of_In, filter_In in Hin as [Hin Hocc].
      apply list_elem_of_In, elem_of_lookup_imap in Hin
        as (i & y & [= -> ->] & Hy).
      exists y. split; [done|]. by apply occipital_spec.
    + intros (ch & Hk & Hch). exists (k, ch). split; [done|].
      apply list_elem_of_In, filter_In. split.
      * apply list_elem_of_In, elem_of_lookup_imap. by exists k, ch.
      * by apply occipital_spec.
  - apply (enumerate_filter_sorted occipital id ch_names). by intros.
  - apply (enumerate_filter_sorted occipital id ch_names). by intros.
Qed.

(** X12.  As written, [nfb_double_spinning_wheel] never gets to its
    loop: whatever its arguments and whatever the receiver and the
    checks of [demo_realtime.utils] do, one of the statements up to the
    creation of the feedback raises, at the latest [DoubleSpinningWheel]
    itself, which is given the tuple [(800, 800)] as [size]. *)
Theorem setup_always_raises (receiver : Type) set_log_level chk
    (StreamReceiver : pyval → pyval → pyval → res receiver) imp png
    stream_name winsize duration verbose :
  is_ok (setup receiver set_log_level chk StreamReceiver imp png
           stream_name winsize duration verbose) = false.
Proof.
  unfold setup, res_bind.
  repeat match goal with
         | |- is_ok (match ?x with _ => _ end) = _ =>
             lazymatch x with
             | DoubleSpinningWheel.__init__ _ _ _ _ _ _ => fail
             | _ => destruct x; try done
             end
         end.
  pose proof (init_with_tuple_size_fails imp chk png
                [Num (PyInt 800); Num (PyInt 800)]
                (Num (PyFloat (Fin 0.5))) ∅) as H.
  by destruct (DoubleSpinningWheel.__init__ _ _ _ _ _ _).
Qed.

(** * More on runs of the control loop *)

(** Induction over a run: a property of states kept by the clock and by
    every pass that returns holds wherever the run stops, and a pass that
    raises leaves what its own analysis gives. *)
Lemma loop_outcome (P : state → Prop) (R : exn → state → Prop) duration :
  (∀ d s, P s → P (tick d s)) →
  (∀ c s, P s → match iteration c s with
                | (s', Ok _) => P s'
                | (s', Raise e) => R e s'
                end) →
  ∀ script s, P s →
    match loop duration script s with
    | Running s' | Done s' => P s'
    | Raised e s' => R e s'
    end.
Proof.
  intros Htick Hiter script. induction script as [|c script IH]; intros s Hs.
  - done.
  - cbn [loop]. destruct (Qle_bool _ _); [|by apply Htick].
    pose proof (Hiter c (tick (wait c) s) (Htick _ _ Hs)) as Hc.
    destruct (iteration c (tick (wait c) s)) as [s' [[]|e]]; [|done].
    by apply IH.
Qed.

(** Whatever the metric and the range, the feedback value converts to an
    integer between 0 and 100, unless it is [NaN]. *)
Lemma feedback_perc_any m lo hi :
  int (feedback_perc m lo hi)
    = Raise (ValueError "cannot convert float NaN to integer") ∨
  ∃ v, int (feedback_perc m lo hi) = Ok v ∧ (0 ≤ v ≤ 100)%Z.
Proof.
  unfold feedback_perc.
  destruct (fdiv (fsub m lo) (fsub hi lo)) as [| | |q].
  - by left.
  - right. exists 100%Z. split; [done|lia].
  - right. exists 0%Z. split; [done|lia].
  - right. destruct (clip_unit q) as (y & -> & _ & Hy0 & Hy1).
    exists (Qtrunc (y * 100)). split; [done|].
    apply (Qtrunc_percent (y * 100) (y * 100)); lra.
Qed.

Lemma update_feedback_cases m s :
  update_feedback m s
    = (s, Raise (ValueError "cannot convert float NaN to integer")) ∨
  ∃ v, (0 ≤ v ≤ 100)%Z ∧
    update_feedback m s =
      ({| metrics := metrics s; inc := inc s; start := start s;
          now := now s;
          feedback := DoubleSpinningWheel.with_speed (feedback s) v;
          log := log s ++
            [{| at_time := now s; at_inc := inc s; what := SetSpeed v |}] |},
       Ok tt).
Proof.
  unfold update_feedback.
  destruct (feedback_perc_any m (percentile (metrics s) 5)
              (percentile (metrics s) 95)) as [->|(v & -> & Hv)].
  - by left.
  - right. exists v. split; [done|].
    unfold invoke. rewrite speed_setter_int, c_int_small by lia. done.
Qed.

Lemma wheel_inv_update fb m s :
  wheel_inv fb s → 100 ≤ inc s →
  match update_feedback m s with
  | (s', Ok _) => wheel_inv fb s'
  | (s', Raise e) => nan_raised fb e s'
  end.
Proof.
  intros Hinv Hfull. pose proof Hinv as (Hlen & Hlog & Hfb & Hact).
  destruct (update_feedback_cases m s) as [->|(v & Hv & ->)].
  - done.
  - split_and!; cbn [metrics inc feedback log]; try done.
    + apply Forall_app. split; [done|]. by repeat constructor.
    + intros. lia.
    + intros _. destruct (Hact Hfull) as (? & ? & _). done.
Qed.

Lemma wheel_inv_iteration fb c s :
  fresh fb → wheel_inv fb s →
  match iteration c s with
  | (s', Ok _) => wheel_inv fb s'
  | (s', Raise e) => nan_raised fb e s'
  end.
Proof.
  intros (Hst & Hsp & Hpr) Hinv.
  pose proof Hinv as (Hlen & Hlog & Hfb & Hact).
  assert (Forall (λ e, is_stop e = false)
            (log (store (metric c) (tick (acq c) s)))) as Hlog'.
  { cbn [store tick log]. apply Forall_app. split; [done|].
    by repeat constructor. }
  destruct (lt_eq_lt_dec (inc s + 1) 100) as [[Hlt|Heq]|Hgt].
  - rewrite iteration_warmup by done. split_and!.
    + cbn [reset_start store tick metrics]. by rewrite length_insert.
    + done.
    + intros _. apply Hfb. lia.
    + cbn [reset_start store tick inc]. lia.
  - rewrite iteration_transition by done. unfold invoke at 1.
    cbn [store tick feedback]. rewrite (Hfb ltac:(lia)).
    destruct (start_ok fb) as (fb' & -> & Hst' & Hsp' & Hpr');
      [by rewrite Hst|done|].
    apply wheel_inv_update; [|cbn [store tick inc]; lia].
    split_and!; cbn [store tick metrics inc feedback log].
    + by rewrite length_insert.
    + rewrite <- (assoc_L (++)). apply Forall_app. split; [done|].
      by repeat constructor.
    + intros. lia.
    + intros _. rewrite Hst', Hsp', Hpr', Hsp. done.
  - rewrite iteration_active by done.
    apply wheel_inv_update; [|cbn [store tick inc]; lia].
    split_and!; cbn [store tick metrics inc feedback].
    + by rewrite length_insert.
    + done.
    + intros. lia.
    + intros _. apply Hact. lia.
Qed.

Lemma wheel_inv_loop fb duration t0 script :
  fresh fb →
  match loop duration script (init fb t0) with
  | Running s | Done s => wheel_inv fb s
  | Raised e s => nan_raised fb e s
  end.
Proof.
  intros Hfresh. apply loop_outcome.
  - done.
  - intros c s. by apply wheel_inv_iteration.
  - split_and!; cbn; try done. lia.
Qed.

(** A session whose acquisitions all return is a run of the loop on the
    metrics they return. *)
Lemma pass_recorded c s : pass (recorded c) s = iteration c s.
Proof. by destruct c. Qed.

Lemma session_loop_recorded duration script s :
  session_loop duration (recorded <$> script) s = loop duration script s.
Proof.
  revert s. induction script as [|c script IH]; intros s; [done|].
  rewrite fmap_cons. cbn [session_loop loop]. rewrite pass_recorded.
  change (pause (recorded c)) with (wait c).
  destruct (Qle_bool _ _); [|done].
  by destruct (iteration c (tick (wait c) s)) as [s' [[]|e]].
Qed.

Lemma session_recorded fb duration t0 script :
  session fb duration t0 (recorded <$> script)
    = nfb_double_spinning_wheel fb duration t0 script.
Proof.
  unfold session, nfb_double_spinning_wheel.
  by rewrite session_loop_recorded.
Qed.

(** Every session is a run of the loop up to its first acquisition that
    raises, if any: what is proved of [loop] holds of sessions up to
    there, and the exception of the acquisition ends the session if the
    loop condition still holds when that window is due. *)
Lemma script_cases (script : list window) :
  (∃ cs, script = recorded <$> cs) ∨
  (∃ cs w e rest,
     script = (recorded <$> cs) ++ w :: rest ∧ acquired w = Raise e).
Proof.
  induction script as [|w script IH]; [left; by exists []|].
  destruct (acquired w) as [m|e] eqn:Hw.
  - assert (w = recorded {| wait := pause w; acq := took w; metric := m |})
      as Hrec by (destruct w; simpl in *; by subst).
    destruct IH as [(cs & ->)|(cs & w' & e & rest & -> & Hw')].
    + left. eexists (_ :: cs). by rewrite fmap_cons, <- Hrec.
    + right. eexists (_ :: cs), w', e, rest.
      by rewrite fmap_cons, <- Hrec.
  - right. by exists [], w, e, script.
Qed.

Lemma session_loop_app duration cs rest s :
  session_loop duration ((recorded <$> cs) ++ rest) s
    = match loop duration cs s with
      | Running s' => session_loop duration rest s'
      | o => o
      end.
Proof.
  revert s. induction cs as [|c cs IH]; intros s; [done|].
  rewrite fmap_cons. cbn [app session_loop loop]. rewrite pass_recorded.
  change (pause (recorded c)) with (wait c).
  destruct (Qle_bool _ _); [|done].
  by destruct (iteration c (tick (wait c) s)) as [s' [[]|e]].
Qed.

Lemma session_loop_raise duration w e rest s :
  acquired w = Raise e →
  session_loop duration (w :: rest) s
    = let s' := tick (pause w) s in
      if Qle_bool (now s' - start s') duration
      then Raised e (tick (took w) s')
      else Done s'.
Proof. intros Hw. cbn [session_loop]. unfold pass. by rewrite Hw. Qed.

(** Induction over a session: as [loop_outcome], with the case of an
    acquisition that raises. *)
Lemma session_loop_outcome (P : state → Prop) (R : exn → state → Prop)
    duration :
  (∀ d s, P s → P (tick d s)) →
  (∀ c s, P s → match iteration c s with
                | (s', Ok _) => P s'
                | (s', Raise e) => R e s'
                end) →
  ∀ script,
    (∀ w e s, w ∈ script → acquired w = Raise e → P s → R e s) →
    ∀ s, P s →
      match session_loop duration script s with
      | Running s' | Done s' => P s'
      | Raised e s' => R e s'
      end.
Proof.
  intros Htick Hiter script.
  induction script as [|w script IH]; intros Hacq s Hs.
  - done.
  - cbn [session_loop]. destruct (Qle_bool _ _); [|by apply Htick].
    unfold pass. destruct (acquired w) as [m|e] eqn:Hw.
    + pose proof (Hiter {| wait := pause w; acq := took w; metric := m |}
                    (tick (pause w) s) (Htick _ _ Hs)) as Hc.
      destruct (iteration _ (tick (pause w) s)) as [s' [[]|e]]; [|done].
      apply IH; [|done]. intros w' e' s0 Hin. apply Hacq. by right.
    + apply (Hacq w); [by left|done|]. by do 2 apply Htick.
Qed.



(** X14.  Given a fresh handle, the code returns normally only from a
    session that stored at least 100 metrics, and then with the wheel
    stopped: the last thing it did was the one call of [stop()], the
    handle is inactive, and the speed cell holds a value from 0 to 100.
    Every session that leaves the loop through its condition with the
    buffer full does return so. *)
Theorem run_returns fb duration t0 script :
  fresh fb →
  (∀ s, nfb_double_spinning_wheel fb duration t0 script = Done s →
     100 ≤ inc s ∧
     DoubleSpinningWheel.active (feedback s) = false ∧
     (0 ≤ DoubleSpinningWheel.speed (feedback s) ≤ 100)%Z ∧
     ∃ l, log s = l ++ [{| at_time := now s; at_inc := inc s;
                           what := Stop |}] ∧
          Forall (λ e, is_stop e = false) l) ∧
  (∀ s0, loop duration script (init fb t0) = Done s0 → 100 ≤ inc s0 →
     ∃ s, nfb_double_spinning_wheel fb duration t0 script = Done s).
Proof.
  intros Hfresh. pose proof Hfresh as (Hst & _).
  unfold nfb_double_spinning_wheel.
  pose proof (wheel_inv_loop fb duration t0 script Hfresh) as Hinv.
  destruct (loop duration script (init fb t0)) as [s0|s0|e0 s0];
    [by split|
     |by split].
  destruct Hinv as (_ & Hlog & Hfb & Hact). unfold invoke.
  destruct (decide (inc s0 < 100)) as [Hlt|Hge].
  - rewrite (Hfb Hlt). unfold DoubleSpinningWheel.stop. rewrite Hst.
    split; [done|]. intros ? [= <-]. lia.
  - destruct (Hact ltac:(lia)) as (Hst1 & Hsp1 & Hspeed).
    unfold DoubleSpinningWheel.stop, Process_join. rewrite Hst1.
    cbn. rewrite Hsp1. split; [|by eauto].
    intros s [= <-]. cbn. split_and!; [lia|done|lia|lia|]. by eexists.
Qed.

Lemma run_returns_witness :
  fresh default_wheel ∧
  ∃ s, nfb_double_spinning_wheel default_wheel 30 0 full_session = Done s ∧
       100 ≤ inc s ∧
       DoubleSpinningWheel.active (feedback s) = false.
Proof.
  assert (fresh default_wheel) as Hfresh by (by repeat split).
  split; [exact Hfresh|].
  assert (nfb_double_spinning_wheel default_wheel 30 0 full_session
          = Done (final (nfb_double_spinning_wheel default_wheel 30 0
                           full_session))) as Hrun
    by (vm_compute; reflexivity).
  eexists. split; [exact Hrun|].
  destruct (proj1 (run_returns default_wheel 30 0 full_session Hfresh)
              _ Hrun) as (Hinc & Hact & _).
  exact (conj Hinc Hact).
Defined.

Lemma start_speed self :
  DoubleSpinningWheel._speed (DoubleSpinningWheel.start self).1
    = DoubleSpinningWheel._speed self.
Proof.
  unfold DoubleSpinningWheel.start.
  destruct (_ =? _)%Z; [done|]. cbv zeta. by destruct (Process_start _).
Qed.

Lemma stop_speed self :
  DoubleSpinningWheel._speed (DoubleSpinningWheel.stop self).1
    = DoubleSpinningWheel._speed self.
Proof.
  unfold DoubleSpinningWheel.stop.
  destruct (_ =? _)%Z; [done|]. cbv zeta. by destruct (Process_join _).
Qed.

Lemma speed_inv_update fb m s :
  speed_inv fb s → speed_inv fb (update_feedback m s).1.
Proof.
  intros (Hlen & Hlog & Hsp).
  destruct (update_feedback_cases m s) as [->|(v & Hv & ->)]; [done|].
  split_and!; cbn [fst metrics feedback log]; [done| |by right].
  apply Forall_app. split; [done|]. apply Forall_singleton.
  by intros ? [= <-].
Qed.

Lemma speed_inv_iteration fb c s :
  speed_inv fb s → speed_inv fb (iteration c s).1.
Proof.
  intros (Hlen & Hlog & Hsp).
  assert (speed_inv fb (store (metric c) (tick (acq c) s))) as Hstored.
  { split_and!; cbn [store tick metrics feedback log].
    - by rewrite length_insert.
    - apply Forall_app. split; [done|]. by apply Forall_singleton.
    - done. }
  destruct (lt_eq_lt_dec (inc s + 1) 100) as [[Hlt|Heq]|Hgt].
  - by rewrite iteration_warmup.
  - rewrite iteration_transition by done.
    assert (speed_inv fb
              (invoke Start DoubleSpinningWheel.start
                 (store (metric c) (tick (acq c) s))).1) as Hstarted.
    { destruct Hstored as (Hlen' & Hlog' & Hsp').
      pose proof (start_speed (feedback (store (metric c) (tick (acq c) s))))
        as Hkeep.
      unfold invoke. destruct (DoubleSpinningWheel.start _) as [fb' r].
      cbn [fst] in *. split_and!; cbn [metrics feedback log].
      - done.
      - apply Forall_app. split; [done|]. by apply Forall_singleton.
      - by rewrite Hkeep. }
    destruct (invoke Start _ _) as [s' [[]|e]]; [|done].
    by apply speed_inv_update.
  - rewrite iteration_active by done. by apply speed_inv_update.
Qed.

(** X15.  Whatever the handle, the metrics and the clock, every speed
    the code sets is an integer from 0 to 100: the wheels never turn
    backwards and never by more than 100 per frame.  At any point of a
    run the speed cell holds such a value, or still the one it was
    given. *)
Theorem pushed_speeds_in_range fb duration t0 script :
  let s := final (nfb_double_spinning_wheel fb duration t0 script) in
  Forall (λ e, ∀ v, what e = SetSpeed v → (0 ≤ v ≤ 100)%Z) (log s) ∧
  (DoubleSpinningWheel.speed (feedback s) = DoubleSpinningWheel.speed fb ∨
   (0 ≤ DoubleSpinningWheel.speed (feedback s) ≤ 100)%Z).
Proof.
  intros s.
  assert (speed_inv fb (final (loop duration script (init fb t0)))) as Hinv.
  { pose proof (loop_outcome (speed_inv fb) (λ _, speed_inv fb) duration)
      as Hloop.
    specialize (Hloop (λ d s H, H)).
    assert (∀ c s, speed_inv fb s →
              match iteration c s with
              | (s', Ok _) => speed_inv fb s'
              | (s', Raise _) => speed_inv fb s'
              end) as Hiter.
    { intros c s1 H1. pose proof (speed_inv_iteration fb c s1 H1) as H2.
      by destruct (iteration c s1) as [s' [[]|e]]. }
    specialize (Hloop Hiter script (init fb t0)).
    assert (speed_inv fb (init fb t0)) as H0
      by (split_and!; [done|constructor|by left]).
    specialize (Hloop H0).
    by destruct (loop duration script (init fb t0)). }
  unfold s, nfb_double_spinning_wheel.
  destruct (loop duration script (init fb t0)) as [s0|s0|e0 s0];
    cbn [final] in *; try (destruct Hinv as (_ & ? & ?); done).
  destruct Hinv as (_ & Hlog & Hsp).
  pose proof (stop_speed (feedback s0)) as Hkeep.
  unfold invoke. destruct (DoubleSpinningWheel.stop _) as [fb' r].
  cbn [fst] in Hkeep.
  assert (Forall (λ e, ∀ v, what e = SetSpeed v → (0 ≤ v ≤ 100)%Z)
            (log s0 ++ [{| at_time := now s0; at_inc := inc s0;
                           what := Stop |}])) as Hlog'.
  { apply Forall_app. split; [done|]. by apply Forall_singleton. }
  unfold DoubleSpinningWheel.speed.
  destruct r as [[]|e]; cbn [final feedback log]; rewrite Hkeep; done.
Qed.

(** X16.  The warm-up cannot time out by adding up: the clock origin is
    taken again after every one of the first 99 metrics, so as long as
    no single pause before the loop condition exceeds the duration, the
    loop goes through the whole warm-up however long the acquisitions
    take. *)
Theorem warmup_never_times_out fb (duration t0 : Q) script :
  Forall (λ c, (wait c <= duration)%Q) script →
  length script < 100 →
  ∃ s, loop duration script (init fb t0) = Running s ∧
       inc s = length script ∧ start s = now s ∧ feedback s = fb.
Proof.
  assert (∀ script s,
            Forall (λ c, (wait c <= duration)%Q) script →
            length (metrics s) = 100 → start s = now s →
            inc s + length script < 100 →
            ∃ s', loop duration script s = Running s' ∧
                  inc s' = inc s + length script ∧ start s' = now s' ∧
                  feedback s' = feedback s) as Hgen.
  { clear script. intros script.
    induction script as [|c script IH]; intros s Hw Hlen Hst Hinc.
    - exists s. split_and!; try done; simpl; lia.
    - apply Forall_cons in Hw as [Hc Hw]. cbn [loop length] in *.
      assert (Qle_bool (now (tick (wait c) s) - start (tick (wait c) s))
                duration = true) as ->.
      { apply Qle_bool_iff. cbn [tick now start]. rewrite Hst. lra. }
      rewrite iteration_warmup by (cbn [tick metrics inc]; (done || lia)).
      destruct (IH (reset_start (store (metric c)
                                   (tick (acq c) (tick (wait c) s)))))
        as (s' & Hrun & Hinc' & Hst' & Hfb'); try done.
      + cbn [reset_start store tick metrics]. by rewrite length_insert.
      + cbn [reset_start store tick inc]. lia.
      + exists s'. split_and!; try done;
          rewrite Hinc'; cbn [reset_start store tick inc]; lia. }
  intros Hw Hlen.
  destruct (Hgen script (init fb t0) Hw) as (s & ? & ? & ? & ?);
    [done|done|cbn; lia|].
  by exists s.
Qed.

Lemma warmup_never_times_out_witness :
  Forall (λ c, (wait c <= 30)%Q) (ramp_cycles 99) ∧
  length (ramp_cycles 99) < 100 ∧
  ∃ s, loop 30 (ramp_cycles 99) (init default_wheel 0) = Running s ∧
       inc s = length (ramp_cycles 99).
Proof.
  assert (Forall (λ c, (wait c <= 30)%Q) (ramp_cycles 99)) as Hw.
  { apply Forall_fmap, Forall_true. intros m. by vm_compute. }
  assert (length (ramp_cycles 99) < 100) as Hlen by (vm_compute; lia).
  refine (conj Hw (conj Hlen _)).
  destruct (warmup_never_times_out default_wheel 30 0 _ Hw Hlen)
    as (s & Hrun & Hinc & _).
  exists s. exact (conj Hrun Hinc).
Defined.

(** * More on the buffer and the feedback value *)

Lemma init_metrics fb t0 : metrics (init fb t0) = replicate 100 NaN.
Proof. reflexivity. Qed.

(** Slots that were not written yet still hold the [NaN] they were
    created with. *)
Lemma fill_unwritten fb t0 xs j :
  length xs ≤ j → j < 100 →
  metrics (fill xs (init fb t0)) !! j = Some NaN.
Proof.
  induction xs as [|x xs IH] using rev_ind; intros Hj Hj'.
  - cbn [fill foldl]. rewrite init_metrics. by apply lookup_replicate_2.
  - rewrite length_app in Hj. cbn [length] in Hj.
    rewrite fill_snoc, store_metrics, fill_inc. cbn [init inc].
    rewrite Nat.add_0_l, Nat.mod_small by lia.
    rewrite list_lookup_insert_ne by lia. apply IH; lia.
Qed.

Lemma update_feedback_nan m s :
  NaN ∈ metrics s →
  update_feedback m s
    = (s, Raise (ValueError "cannot convert float NaN to integer")).
Proof.
  intros Hnan. unfold update_feedback, feedback_perc.
  rewrite !percentile_nan by done. by destruct m.
Qed.

(** X17.  The [nan] the buffer is created with guards it: while fewer
    than 100 metrics have been appended, every percentile of the buffer
    is [NaN], whatever was appended, and the feedback update would raise
    rather than push a speed computed from a partly filled buffer. *)
Theorem partial_buffer_is_guarded fb t0 (xs : list float) :
  length xs < 100 →
  (∀ q, percentile (metrics (fill xs (init fb t0))) q = NaN) ∧
  (∀ m, update_feedback m (fill xs (init fb t0))
        = (fill xs (init fb t0),
           Raise (ValueError "cannot convert float NaN to integer"))).
Proof.
  intros Hlen.
  assert (NaN ∈ metrics (fill xs (init fb t0))) as Hnan.
  { apply list_elem_of_lookup. exists (length xs).
    apply fill_unwritten; lia. }
  split.
  - intros q. by apply percentile_nan.
  - intros m. by apply update_feedback_nan.
Qed.

Lemma partial_buffer_is_guarded_witness :
  length (climb 99) < 100 ∧
  percentile (metrics (fill (climb 99) (init default_wheel 0))) 5 = NaN.
Proof.
  assert (length (climb 99) < 100) as Hlen by (vm_compute; lia).
  exact (conj Hlen
    (proj1 (partial_buffer_is_guarded default_wheel 0 (climb 99) Hlen) 5%Q)).
Defined.

(** X18.  One metric that is not a number ends the session: once the
    buffer is full, the pass that stores a [NaN] metric raises the
    [ValueError] of [int(nan)] right after storing it, without a call on
    the handle; and so does any feedback update made while a [NaN] is
    in the buffer. *)
Theorem nan_metric_aborts c s :
  length (metrics s) = 100 → 100 ≤ inc s → metric c = NaN →
  iteration c s
    = (store NaN (tick (acq c) s),
       Raise (ValueError "cannot convert float NaN to integer")) ∧
  feedback (iteration c s).1 = feedback s.
Proof.
  intros Hlen Hinc Hm.
  rewrite iteration_active by (done || lia). rewrite Hm.
  rewrite update_feedback_nan; [done|].
  rewrite store_metrics. apply list_elem_of_lookup.
  exists (inc (tick (acq c) s) mod 100). apply list_lookup_insert_eq.
  cbn [tick metrics]. rewrite Hlen. apply Nat.mod_upper_bound. lia.
Qed.

Lemma nan_metric_aborts_witness :
  length (metrics ramp_state) = 100 ∧ 100 ≤ inc ramp_state ∧
  (iteration {| wait := 0; acq := 1; metric := NaN |} ramp_state).2
    = Raise (ValueError "cannot convert float NaN to integer").
Proof.
  assert (length (metrics ramp_state) = 100) as Hlen by reflexivity.
  assert (100 ≤ inc ramp_state) as Hinc by (vm_compute; lia).
  refine (conj Hlen (conj Hinc _)).
  destruct (nan_metric_aborts {| wait := 0; acq := 1; metric := NaN |}
              ramp_state Hlen Hinc eq_refl) as [-> _].
  reflexivity.
Defined.

Lemma fill_cons x xs s : fill (x :: xs) s = fill xs (store x s).
Proof. reflexivity. Qed.

Lemma fill_ext xs s1 s2 :
  metrics s1 = metrics s2 → inc s1 = inc s2 →
  metrics (fill xs s1) = metrics (fill xs s2).
Proof.
  revert s1 s2. induction xs as [|x xs IH]; intros s1 s2 Hm Hi; [done|].
  rewrite !fill_cons. apply IH.
  - by rewrite !store_metrics, Hm, Hi.
  - by rewrite !store_inc, Hi.
Qed.

(** Every pass stores its metric, whether it goes on to raise or not. *)
Lemma iteration_buffer c s :
  length (metrics s) = 100 →
  metrics (iteration c s).1 = <[inc s mod 100 := metric c]> (metrics s) ∧
  inc (iteration c s).1 = inc s + 1.
Proof.
  intros Hlen.
  destruct (lt_eq_lt_dec (inc s + 1) 100) as [[Hlt|Heq]|Hgt].
  - by rewrite iteration_warmup.
  - rewrite iteration_transition by done.
    destruct (invoke_fields Start DoubleSpinningWheel.start
                (store (metric c) (tick (acq c) s))) as (Hm & Hi & _).
    destruct (invoke Start _ _) as [s' [[]|e]]; cbn [fst] in *; [|done].
    destruct (update_feedback_fields (metric c) s') as (Hm' & Hi' & _).
    by rewrite Hm', Hi', Hm, Hi.
  - rewrite iteration_active by done.
    destruct (update_feedback_fields (metric c)
                (store (metric c) (tick (acq c) s))) as (Hm' & Hi' & _).
    by rewrite Hm', Hi'.
Qed.

Lemma loop_fill duration script s :
  length (metrics s) = 100 →
  ∃ n, n ≤ length script ∧
       inc (final (loop duration script s)) = inc s + n ∧
       metrics (final (loop duration script s))
         = metrics (fill (metric <$> take n script) s).
Proof.
  revert s. induction script as [|c script IH]; intros s Hlen.
  - exists 0. by split_and!.
  - cbn [loop]. destruct (Qle_bool _ _); [|exists 0; split_and!; (done || lia)].
    destruct (iteration_buffer c (tick (wait c) s) Hlen) as (Hm & Hi).
    cbn [tick metrics inc] in Hm, Hi.
    destruct (iteration c (tick (wait c) s)) as [s' [[]|e]]; cbn [fst] in *.
    + destruct (IH s') as (n & Hn & Hinc & Hmet);
        [by rewrite Hm, length_insert|].
      exists (S n). cbn [length take fmap list_fmap]. split_and!; [lia|lia|].
      rewrite Hmet, fill_cons. apply fill_ext; [by rewrite Hm|by rewrite Hi].
    + exists 1. cbn [final length take fmap list_fmap]. split_and!; [lia|done|].
      rewrite take_0. by rewrite Hm.
Qed.

(** X19.  In every run, however it ends, [inc] counts the windows
    acquired and the buffer is what appending their metrics one by one
    gives: once 100 were acquired it holds exactly the metrics of the
    last 100 windows, the oldest of them in the slot the next one will
    overwrite. *)
Theorem run_buffer_is_last_windows fb duration t0 script :
  let s := final (nfb_double_spinning_wheel fb duration t0 script) in
  let acquired := metric <$> take (inc s) script in
  inc s ≤ length script ∧
  metrics s = metrics (fill acquired (init fb t0)) ∧
  (100 ≤ inc s →
     rotate (inc s mod 100) (metrics s) = drop (inc s - 100) acquired ∧
     metrics s ≡ₚ drop (inc s - 100) acquired).
Proof.
  intros s acquired.
  destruct (loop_fill duration script (init fb t0) eq_refl)
    as (n & Hn & Hinc & Hmet).
  assert (inc s = n ∧
          metrics s = metrics (final (loop duration script (init fb t0))))
    as [Hi Hm].
  { unfold s, nfb_double_spinning_wheel. cbn [init inc] in Hinc.
    destruct (loop duration script (init fb t0)) as [s0|s0|e0 s0];
      cbn [final] in *; try done.
    destruct (invoke_fields Stop DoubleSpinningWheel.stop s0)
      as (Hm & Hi & _).
    destruct (invoke Stop _ _) as [s' [[]|e]]; cbn [final fst] in *;
      by rewrite Hm, Hi. }
  unfold acquired. rewrite Hi, Hm, Hmet.
  assert (length (metric <$> take n script) = n) as Hlen
    by (rewrite length_fmap, length_take; lia).
  split_and!; [done|done|]. intros Hfull.
  pose proof (fill_rotate (metric <$> take n script) (init fb t0)
                eq_refl eq_refl) as Hrot.
  rewrite Hlen in Hrot. specialize (Hrot Hfull).
  split; [done|]. rewrite <- Hrot. apply rotate_perm.
Qed.

Lemma run_buffer_is_last_windows_witness :
  100 ≤ inc (final (nfb_double_spinning_wheel default_wheel 30 0
                      full_session)) ∧
  metrics (final (nfb_double_spinning_wheel default_wheel 30 0 full_session))
    ≡ₚ drop 1 (climb 101).
Proof.
  assert (100 ≤ inc (final (nfb_double_spinning_wheel default_wheel 30 0
                              full_session))) as Hinc by (vm_compute; lia).
  split; [exact Hinc|].
  destruct (run_buffer_is_last_windows default_wheel 30 0 full_session)
    as (_ & _ & H).
  destruct (H Hinc) as [_ Hperm].
  assert (drop (inc (final (nfb_double_spinning_wheel default_wheel 30 0
                              full_session)) - 100)
            (metric <$> take (inc (final (nfb_double_spinning_wheel
                                            default_wheel 30 0 full_session)))
                          full_session)
          = drop 1 (climb 101)) as Heq by (vm_compute; reflexivity).
  rewrite <- Heq. exact Hperm.
Defined.








Lemma updates_snoc l e :
  updates (l ++ [e]) = updates l + (if is_set_speed e then 1 else 0).
Proof.
  unfold updates. rewrite List.filter_app, length_app. simpl.
  by destruct (is_set_speed e).
Qed.

Lemma updates_update m s :
  match update_feedback m s with
  | (s', Ok _) => updates (log s') = S (updates (log s))
  | (s', Raise _) => updates (log s') = updates (log s)
  end.
Proof.
  destruct (update_feedback_cases m s) as [->|(v & _ & ->)]; [done|].
  cbn [log]. rewrite updates_snoc. simpl. lia.
Qed.

Lemma pending_snoc l e :
  pending (l ++ [e])
    = match what e with
      | Append _ => 100 <=? at_inc e
      | Start => true
      | _ => false
      end.
Proof. unfold pending. by rewrite last_snoc. Qed.

(** One pass that has its metric: it either returns with one update more
    if 100 metrics are stored, or raises after storing the metric and
    before updating the speed. *)
Lemma updates_iteration c s :
  length (metrics s) = 100 → updates (log s) = inc s - 99 →
  match iteration c s with
  | (s', Ok _) =>
      length (metrics s') = 100 ∧ updates (log s') = inc s' - 99 ∧
      pending (log s') = false
  | (s', Raise _) =>
      pending (log s') = true ∧ updates (log s') = inc s' - 100 ∧
      100 ≤ inc s'
  end.
Proof.
  intros Hlen Hupd.
  set (s1 := store (metric c) (tick (acq c) s)).
  assert (length (metrics s1) = 100) as Hlen1
    by (unfold s1; by rewrite store_metrics, length_insert).
  assert (inc s1 = inc s + 1) as Hinc1 by done.
  assert (updates (log s1) = updates (log s)) as Hupd1
    by (cbn [s1 store tick log]; rewrite updates_snoc; simpl; lia).
  assert (pending (log s1) = (100 <=? inc s + 1)) as Hpend1
    by (cbn [s1 store tick log inc]; by rewrite pending_snoc).
  assert (∀ m s2, inc s2 = inc s1 → 100 ≤ inc s2 →
            length (metrics s2) = 100 →
            updates (log s2) = updates (log s1) →
            pending (log s2) = true →
            match update_feedback m s2 with
            | (s', Ok _) =>
                length (metrics s') = 100 ∧ updates (log s') = inc s' - 99 ∧
                pending (log s') = false
            | (s', Raise _) =>
                pending (log s') = true ∧ updates (log s') = inc s' - 100 ∧
                100 ≤ inc s'
            end) as Hupdate.
  { intros m s2 Hi2 Hfull Hl2 Hu2 Hp2.
    destruct (update_feedback_cases m s2) as [->|(v & _ & ->)].
    - split_and!; [done| |done]. rewrite Hu2, Hupd1, Hupd, Hi2, Hinc1. lia.
    - cbn [metrics log inc]. split_and!; [done| |by rewrite pending_snoc].
      rewrite updates_snoc, Hu2, Hupd1, Hupd, Hi2, Hinc1. simpl. lia. }
  destruct (lt_eq_lt_dec (inc s + 1) 100) as [[Hlt|Heq]|Hgt].
  - rewrite iteration_warmup by done. fold s1.
    cbn [reset_start metrics log inc]. split_and!; [done| |].
    + rewrite Hupd1, Hupd, Hinc1. lia.
    + rewrite Hpend1. apply Nat.leb_gt. lia.
  - rewrite iteration_transition by done. fold s1. unfold invoke.
    destruct (DoubleSpinningWheel.start (feedback s1)) as [fb' [[]|e]].
    + apply Hupdate; cbn [metrics log inc]; [done|lia|done| |].
      * rewrite updates_snoc. simpl. lia.
      * by rewrite pending_snoc.
    + cbn [metrics log inc]. split_and!; [by rewrite pending_snoc| |lia].
      rewrite updates_snoc, Hupd1, Hupd, Hinc1. simpl. lia.
  - rewrite iteration_active by done. fold s1.
    apply Hupdate; [done|lia|done|done|].
    rewrite Hpend1. apply Nat.leb_le. lia.
Qed.

(** X22.  The speed is updated once per window from the 100th on: as
    long as the loop has not raised, its log holds [inc - 99] speed
    updates (none during the warm-up).  When a pass raises after storing
    its metric, in [start()] or in [int()], that window alone is left
    without its update; when the acquisition raises, nothing was stored
    by that pass and every window from the 100th on has its update. *)
Theorem one_update_per_window fb duration t0 script :
  match session_loop duration script (init fb t0) with
  | Running s | Done s => updates (log s) = inc s - 99
  | Raised e s =>
      if pending (log s)
      then updates (log s) = inc s - 100 ∧ 100 ≤ inc s
      else updates (log s) = inc s - 99 ∧
           ∃ w, w ∈ script ∧ acquired w = Raise e
  end.
Proof.
  pose proof (session_loop_outcome
    (λ s, length (metrics s) = 100 ∧ updates (log s) = inc s - 99 ∧
          pending (log s) = false)
    (λ e s, if pending (log s)
            then updates (log s) = inc s - 100 ∧ 100 ≤ inc s
            else updates (log s) = inc s - 99 ∧
                 ∃ w, w ∈ script ∧ acquired w = Raise e) duration) as Hloop.
  assert (match session_loop duration script (init fb t0) with
          | Running s | Done s =>
              length (metrics s) = 100 ∧ updates (log s) = inc s - 99 ∧
              pending (log s) = false
          | Raised e s =>
              if pending (log s)
              then updates (log s) = inc s - 100 ∧ 100 ≤ inc s
              else updates (log s) = inc s - 99 ∧
                   ∃ w, w ∈ script ∧ acquired w = Raise e
          end) as H.
  { apply Hloop.
    - done.
    - intros c s (Hlen & Hupd & _).
      pose proof (updates_iteration c s Hlen Hupd) as Hc.
      destruct (iteration c s) as [s' [[]|e]]; [done|].
      destruct Hc as (-> & Hc). done.
    - intros w e s Hin Hw (_ & Hupd & ->). split; [done|by exists w].
    - done. }
  destruct (session_loop duration script (init fb t0)) as [s|s|e s];
    [apply H|apply H|exact H].
Qed.

(** The session that loses its stream when 102 windows are stored: the
    three windows from the 100th on have had their update. *)
Lemma one_update_per_window_witness :
  ∃ s, session_loop 30 broken_session (init default_wheel 0)
         = Raised (RuntimeError "stream lost") s ∧
       inc s = 102 ∧ updates (log s) = 3.
Proof.
  pose proof (one_update_per_window default_wheel 30 0 broken_session) as H.
  assert (session_loop 30 broken_session (init default_wheel 0)
          = Raised (RuntimeError "stream lost")
              (final (session_loop 30 broken_session (init default_wheel 0))))
    as Hrun by (vm_compute; reflexivity).
  assert (inc (final (session_loop 30 broken_session (init default_wheel 0)))
          = 102) as Hinc by (vm_compute; reflexivity).
  assert (pending (log (final (session_loop 30 broken_session
                                 (init default_wheel 0)))) = false)
    as Hpend by (vm_compute; reflexivity).
  rewrite Hrun in H. rewrite Hpend, Hinc in H.
  eexists. split; [exact Hrun|]. split; [exact Hinc|]. exact (proj1 H).
Defined.
